(** * ai-email-assistant: the ingestion, analysis, reply and storage pipeline

A shallow embedding of
  - [services/nlp_service.py]      (module [NlpService]),
  - [services/response_service.py] (module [ResponseService]),
  - [utils/db.py]                  (module [Db]),
  - [app.py]                       (modules [App] and [Dashboard]),
  - [services/email_service.py]    (module [EmailService]),
with the Python built-ins they call (module [Py]) and the regular
expressions they use (module [Re]).

Conventions.
  - A Python [str] is a [string]: the sequence of its UTF-8 bytes.
    Outside ASCII Python goes by the Unicode database, and the model
    follows it as far as the program can tell:
    [lower] knows the two characters outside ASCII whose lower case holds
    an ASCII letter, which is all that the search for an ASCII word in
    [s.lower()] can see; [\s] and [\d] of the telephone pattern are the
    whitespace and the decimal digits of Unicode; the word tokens of
    [response_service], which need the letters and the case mapping of
    every script, are read from the environment.  [strip] and the sentence
    splitter remove ASCII whitespace only: they are Python's on text whose
    whitespace is ASCII, and a statement that depends on the difference
    says so.
  - A Python [int] is a [Z]; a Python float is the rational number ([Q])
    that it is.
  - A dictionary entry that may be missing or [None] is a [field].
  - A Python exception is the [None] of an [option] result.
  - What the program reads from outside itself (clock, hash salt,
    credential, oracle, knowledge-base directory, date parsing of the
    platform, word tokens) is a record [Env]; SQLite's [datetime()] is a
    parameter of the functions of [Db]. *)

From stdpp Require Import base list strings gmap sorting pretty.
From Stdlib Require Import ZArith QArith Lia Ascii.

Local Open Scope Z_scope.

(** The double quote, for the string literals of the source that hold one. *)
Definition dq : string := String (ascii_of_nat 34) "".

(* ===================================================================== *)
(** * Python built-ins on text *)
(* ===================================================================== *)

Module Py.

(** [c.isspace()] for an ASCII character: tab, newline, vertical tab, form
    feed, carriage return, the four separators 28..31, and the space. *)
Definition isspace (c : ascii) : bool :=
  let n := nat_of_ascii c in
  ((9 <=? n) && (n <=? 13) || (28 <=? n) && (n <=? 32))%nat.

Definition isupper (c : ascii) : bool :=
  let n := nat_of_ascii c in ((65 <=? n) && (n <=? 90))%nat.

Definition lower_char (c : ascii) : ascii :=
  if isupper c then ascii_of_nat (nat_of_ascii c + 32) else c.

(** [s.lower()], as far as ASCII can tell.  The ASCII letters are lowered,
    and so are the two characters outside ASCII whose lower case holds an
    ASCII letter: the capital I with a dot, U+0130 (bytes 196 176), becomes
    [i] and the combining dot U+0307 (bytes 204 135), and the Kelvin sign,
    U+212A (bytes 226 132 170), becomes [k].  Every other character outside
    ASCII is left as it is: its lower case is outside ASCII as well, so
    that an ASCII word occurs in this text exactly when it occurs in
    [s.lower()]. *)
Fixpoint lower (s : string) : string :=
  match s with
  | "" => ""
  | String c r =>
      match r with
      | String c2 r2 =>
          if bool_decide (c = "196"%char ∧ c2 = "176"%char) then
            String "i" (String "204" (String "135" (lower r2)))
          else
            match r2 with
            | String c3 r3 =>
                if bool_decide (c = "226"%char ∧ c2 = "132"%char ∧ c3 = "170"%char)
                then String "k" (lower r3)
                else String (lower_char c) (lower r)
            | "" => String (lower_char c) (lower r)
            end
      | "" => String (lower_char c) ""
      end
  end.

(** [s.lstrip()], [s.rstrip()] and [s.strip()]: the ASCII whitespace is
    removed.  Python also removes the whitespace of Unicode (U+00A0 and 17
    others outside ASCII), which these leave in place. *)
Fixpoint lstrip (s : string) : string :=
  match s with
  | "" => ""
  | String c s' => if isspace c then lstrip s' else s
  end.

Fixpoint rstrip (s : string) : string :=
  match s with
  | "" => ""
  | String c s' =>
      match rstrip s' with
      | "" => if isspace c then "" else String c ""
      | r => String c r
      end
  end.

Definition strip (s : string) : string := rstrip (lstrip s).

(** [s.startswith(w)] *)
Fixpoint startswith (w s : string) : bool :=
  match w, s with
  | "", _ => true
  | String _ _, "" => false
  | String a w', String b s' => if decide (a = b) then startswith w' s' else false
  end.

(** [w in s], the substring test. *)
Fixpoint contains (w s : string) : bool :=
  startswith w s ||
  match s with
  | "" => false
  | String _ s' => contains w s'
  end.

(** [sep.join(l)] *)
Fixpoint join (sep : string) (l : list string) : string :=
  match l with
  | [] => ""
  | [x] => x
  | x :: l' => x +:+ sep +:+ join sep l'
  end.

(** [s.split(d)[0]]: the text before the first [d], all of [s] without one. *)
Fixpoint before (d : ascii) (s : string) : string :=
  match s with
  | "" => ""
  | String c s' => if decide (c = d) then "" else String c (before d s')
  end.

(** Truth value of a [str]: only the empty one is false. *)
Definition truthy (s : string) : bool := negb (String.eqb s "").

(** [l[:k]] for a list and an [int], which may be negative: a negative [k]
    drops the last [-k] elements. *)
Definition slice_to {A} (k : Z) (l : list A) : list A :=
  if 0 <=? k then take (Z.to_nat k) l
  else take (length l - Z.to_nat (- k))%nat l.

End Py.

(* ===================================================================== *)
(** * Regular expressions: the fragment of [re] the program uses *)
(* ===================================================================== *)

Module Re.

Inductive regex : Type :=
| Cls (p : ascii → bool)        (* one byte of a class *)
| Seq (r1 r2 : regex)
| Alt (r1 r2 : regex)           (* r1|r2 *)
| Opt (r : regex)               (* r?  , greedy *)
| Star (r : regex)              (* r*  , greedy *)
| Rep (n : nat) (r : regex).    (* r{n}          *)

Definition Plus (r : regex) : regex := Seq r (Star r).
Definition AtLeast (n : nat) (r : regex) : regex := Seq (Rep n r) (Star r).
Definition Chr (c : ascii) : regex := Cls (λ x, bool_decide (x = c)).

Definition first_some {A} (x y : option A) : option A :=
  match x with Some _ => x | None => y end.

(** Backtracking match of [r] at the head of [s]: the alternatives are tried
    in the order of the engine (greedy first), the first one whose
    continuation [k] accepts the rest wins; the result is the input left
    after the whole match. *)
Fixpoint exec (r : regex) (s : string) (k : string → option string)
  : option string :=
  match r with
  | Cls p =>
      match s with
      | String c s' => if p c then k s' else None
      | "" => None
      end
  | Seq r1 r2 => exec r1 s (λ s', exec r2 s' k)
  | Alt r1 r2 => first_some (exec r1 s k) (exec r2 s k)
  | Opt r1 => first_some (exec r1 s k) (k s)
  | Star r1 =>
      (fix star (fuel : nat) (s : string) : option string :=
         match fuel with
         | O => k s
         | S fuel' =>
             first_some
               (exec r1 s (λ s',
                  if (String.length s' <? String.length s)%nat
                  then star fuel' s' else None))
               (k s)
         end) (String.length s) s
  | Rep n r1 =>
      (fix rep (n : nat) (s : string) : option string :=
         match n with
         | O => k s
         | S n' => exec r1 s (rep n')
         end) n s
  end.

Definition tail (s : string) : string :=
  match s with "" => "" | String _ s' => s' end.

(** The first [n] characters of [s]. *)
Fixpoint prefix_of_length (n : nat) (s : string) : string :=
  match n, s with
  | S n', String c s' => String c (prefix_of_length n' s')
  | _, _ => ""
  end.

Fixpoint findall_go (fuel : nat) (r : regex) (s : string) : list string :=
  match fuel with
  | O => []
  | S fuel' =>
      match exec r s Some with
      | Some rest =>
          let n := (String.length s - String.length rest)%nat in
          prefix_of_length n s ::
            match s with
            | "" => []
            | _ => findall_go fuel' r (if (n =? 0)%nat then tail s else rest)
            end
      | None =>
          match s with
          | "" => []
          | String _ s' => findall_go fuel' r s'
          end
      end
  end.

(** [re.findall(r, s)] for a pattern without groups: the matches, leftmost
    first, each search starting where the previous match ended. *)
Definition findall (r : regex) (s : string) : list string :=
  findall_go (S (String.length s)) r s.

(** Classes of ASCII characters: [[0-9]], [[A-Za-z]], [[A-Za-z0-9]],
    [[A-Za-z0-9_]] and a set given by its members. *)
Definition in_range (lo hi : nat) (c : ascii) : bool :=
  let n := nat_of_ascii c in ((lo <=? n) && (n <=? hi))%nat.
Definition digit : ascii → bool := in_range 48 57.
Definition alpha (c : ascii) : bool := in_range 65 90 c || in_range 97 122 c.
Definition alnum (c : ascii) : bool := alpha c || digit c.
Definition word (c : ascii) : bool := alnum c || bool_decide (c = "_"%char).
Definition one_of (l : list ascii) (c : ascii) : bool := bool_decide (c ∈ l).

(** Classes of Unicode.  A character outside ASCII is two to four bytes of
    the text (UTF-8); a table lists runs of characters, each run by the
    bytes that its characters begin with and the range of their last
    byte. *)
(** The whitespace of Unicode outside ASCII: U+0085, U+00A0, U+1680,
    U+2000 to U+200A, U+2028, U+2029, U+202F, U+205F and U+3000. *)
Definition unicode_spaces : list (list nat * nat * nat) :=
  [([194], 133, 133); ([194], 160, 160); ([225; 154], 128, 128);
   ([226; 128], 128, 138); ([226; 128], 168, 169); ([226; 128], 175, 175);
   ([226; 129], 159, 159); ([227; 128], 128, 128)]%nat.

(** The decimal digits of Unicode 14.0 (the version of CPython 3.11)
    outside ASCII: the digits 0 to 9 of 61 scripts and styles. *)
Definition unicode_digits : list (list nat * nat * nat) :=
  [([217], 160, 169); ([219], 176, 185); ([223], 128, 137);
   ([224; 165], 166, 175); ([224; 167], 166, 175); ([224; 169], 166, 175);
   ([224; 171], 166, 175); ([224; 173], 166, 175); ([224; 175], 166, 175);
   ([224; 177], 166, 175); ([224; 179], 166, 175); ([224; 181], 166, 175);
   ([224; 183], 166, 175); ([224; 185], 144, 153); ([224; 187], 144, 153);
   ([224; 188], 160, 169); ([225; 129], 128, 137); ([225; 130], 144, 153);
   ([225; 159], 160, 169); ([225; 160], 144, 153); ([225; 165], 134, 143);
   ([225; 167], 144, 153); ([225; 170], 128, 137); ([225; 170], 144, 153);
   ([225; 173], 144, 153); ([225; 174], 176, 185); ([225; 177], 128, 137);
   ([225; 177], 144, 153); ([234; 152], 160, 169); ([234; 163], 144, 153);
   ([234; 164], 128, 137); ([234; 167], 144, 153); ([234; 167], 176, 185);
   ([234; 169], 144, 153); ([234; 175], 176, 185); ([239; 188], 144, 153);
   ([240; 144; 146], 160, 169); ([240; 144; 180], 176, 185);
   ([240; 145; 129], 166, 175); ([240; 145; 131], 176, 185);
   ([240; 145; 132], 182, 191); ([240; 145; 135], 144, 153);
   ([240; 145; 139], 176, 185); ([240; 145; 145], 144, 153);
   ([240; 145; 147], 144, 153); ([240; 145; 153], 144, 153);
   ([240; 145; 155], 128, 137); ([240; 145; 156], 176, 185);
   ([240; 145; 163], 160, 169); ([240; 145; 165], 144, 153);
   ([240; 145; 177], 144, 153); ([240; 145; 181], 144, 153);
   ([240; 145; 182], 160, 169); ([240; 150; 169], 160, 169);
   ([240; 150; 171], 128, 137); ([240; 150; 173], 144, 153);
   ([240; 157; 159], 142, 191); ([240; 158; 133], 128, 137);
   ([240; 158; 139], 176, 185); ([240; 158; 165], 144, 153);
   ([240; 159; 175], 176, 185)]%nat.

(** The bytes [l], then [r]. *)
Definition bytes (l : list nat) (r : regex) : regex :=
  foldr (λ b r, Seq (Chr (ascii_of_nat b)) r) r l.

(** One character of a table. *)
Definition Table (t : list (list nat * nat * nat)) : regex :=
  foldr (λ e r, Alt (bytes e.1.1 (Cls (in_range e.1.2 e.2))) r)
        (Cls (λ _, false)) t.

(** [\s] and [\d] for a pattern of type [str]. *)
Definition space : regex := Alt (Cls Py.isspace) (Table unicode_spaces).
Definition decimal : regex := Alt (Cls digit) (Table unicode_digits).

End Re.

(* ===================================================================== *)
(** * What the program reads from outside itself *)
(* ===================================================================== *)

(** One run of the program sees one [Env].
    - [utcnow_isoformat i]: [datetime.utcnow().isoformat()] as read while the
      [i]-th email of a batch is normalized;
    - [hash_str], [hash_None]: the built-in [hash] of this process on a
      non-empty [str] (salted per process) and on [None]; the empty [str]
      hashes to 0 in every process;
    - [GEMINI_API_KEY]: whether [os.getenv("GEMINI_API_KEY")] is set and
      non-empty;
    - [nlp_call_gemini], [response_call_gemini]: [_call_gemini] of each
      service, the text of the oracle or [None] (any exception of the call
      is caught there and becomes [None]);
    - [json_loads]: [json.loads] followed by the four [parsed.get]: the
      text entries of the object, [None] when the text is no JSON object
      (an exception that [analyze_email] catches).  An entry whose value
      is no text is not represented: a falsy one ([null], [0], [[]]) is
      rightly absent, since [or] replaces it, a truthy one (a number, a
      list) is outside the model, and what is stated of a run with a
      credential is stated of an oracle whose entries are text;
    - [KB_DIR]: [None] when the directory does not exist, else its [*.txt]
      files in the order [glob] lists them, each with its name and its
      text ([None] when reading it raises);
    - [str_lower], [findall_words]: [s.lower()] and
      [re.findall(r"\w+", s)] by the character database of the
      interpreter, which knows the letters and the case mapping of every
      script; they give the tokens of [response_service];
    - [fromisoformat_timestamp]: the float
      [datetime.fromisoformat(s).timestamp()], as the rational number that
      it is, [None] when the call raises.  Two timestamps that are close
      enough have the same float. *)
Record Env : Type := {
  utcnow_isoformat : nat → string;
  hash_str : string → Z;
  hash_None : Z;
  GEMINI_API_KEY : bool;
  nlp_call_gemini : string → option string;
  response_call_gemini : string → option string;
  json_loads : string → option (list (string * string));
  KB_DIR : option (list (string * option string));
  str_lower : string → string;
  findall_words : string → list string;
  fromisoformat_timestamp : string → option Q
}.

(** The email dictionary that [app.py] hands to the two services
    ([e_norm]): [sender] is [None] when the raw email holds a null one. *)
Record Email : Type := {
  message_id : string;
  sender : option string;
  subject : string;
  body : string;
  received_at : string
}.

(** The dictionary [analyze_email] returns. *)
Record Analysis : Type := {
  sentiment : string;
  priority : string;
  requirements : string;
  contacts : string
}.

(** [d.get(k)] on a list of entries. *)
Fixpoint assoc (k : string) (d : list (string * string)) : option string :=
  match d with
  | [] => None
  | (k', v) :: d' => if decide (k' = k) then Some v else assoc k d'
  end.

(** [x or y] where [x] is a [str] or [None]. *)
Definition or_else (x : option string) (y : string) : string :=
  match x with
  | Some s => if Py.truthy s then s else y
  | None => y
  end.

(* ===================================================================== *)
(** * services/nlp_service.py *)
(* ===================================================================== *)

Module NlpService.

Definition POS_WORDS : list string :=
  ["great"; "thanks"; "thank you"; "appreciate"; "love"; "awesome"; "good"].
Definition NEG_WORDS : list string :=
  ["issue"; "problem"; "angry"; "frustrated"; "not working"; "cannot";
   "error"; "fail"].
Definition URGENT_WORDS : list string :=
  ["urgent"; "immediately"; "asap"; "critical"; "cannot access"; "down";
   "outage"; "blocked"].

(** [[A-Za-z0-9._%+-]+@[A-Za-z0-9.-]+\.[A-Za-z]{2,}] *)
Definition EMAIL_REGEX : Re.regex :=
  Re.Seq (Re.Plus (Re.Cls (λ c,
            Re.alnum c || Re.one_of ["."; "_"; "%"; "+"; "-"]%char c)))
 (Re.Seq (Re.Chr "@")
 (Re.Seq (Re.Plus (Re.Cls (λ c, Re.alnum c || Re.one_of ["."; "-"]%char c)))
 (Re.Seq (Re.Chr ".")
         (Re.AtLeast 2 (Re.Cls Re.alpha))))).

(** [[\s-]?] *)
Definition sep : Re.regex := Re.Opt (Re.Alt Re.space (Re.Chr "-")).

(** [(?:\+?\d[\s-]?)?(?:\(?\d{3}\)?[\s-]?)?\d{3}[\s-]?\d{4}] *)
Definition PHONE_REGEX : Re.regex :=
  Re.Seq (Re.Opt (Re.Seq (Re.Opt (Re.Chr "+")) (Re.Seq Re.decimal sep)))
 (Re.Seq (Re.Opt (Re.Seq (Re.Opt (Re.Chr "("))
                 (Re.Seq (Re.Rep 3 Re.decimal)
                 (Re.Seq (Re.Opt (Re.Chr ")")) sep))))
 (Re.Seq (Re.Rep 3 Re.decimal)
 (Re.Seq sep (Re.Rep 4 Re.decimal)))).

(** [any(w in tl for w in ws)] *)
Definition any_in (ws : list string) (tl : string) : bool :=
  existsb (λ w, Py.contains w tl) ws.

Definition _sentiment (text : string) : string :=
  let tl := Py.lower text in
  let pos := any_in POS_WORDS tl in
  let neg := any_in NEG_WORDS tl in
  if pos && negb neg then "Positive"
  else if neg && negb pos then "Negative"
  else "Neutral".

Definition _priority (text : string) : string :=
  let tl := Py.lower text in
  if any_in URGENT_WORDS tl then "Urgent" else "Not urgent".

(** [sorted(set(l))]: the distinct elements in increasing order. *)
Fixpoint insert_new (x : string) (l : list string) : list string :=
  match l with
  | [] => [x]
  | y :: l' =>
      if decide (x = y) then l
      else if String.ltb x y then x :: l
      else y :: insert_new x l'
  end.
Definition sorted_set (l : list string) : list string :=
  foldr insert_new [] l.

Definition _extract_contacts (text : string) : string :=
  let emails := Re.findall EMAIL_REGEX text in
  let phones := Re.findall PHONE_REGEX text in
  let parts :=
    (match emails with
     | [] => []
     | _ => ["Emails: " +:+ Py.join ", " (take 3 (sorted_set emails))]
     end) ++
    (match phones with
     | [] => []
     | _ => ["Phones: " +:+ Py.join ", " (take 3 (sorted_set phones))]
     end) in
  Py.join " | " parts.

Definition is_stop (c : ascii) : bool :=
  Re.one_of ["."; "!"; "?"]%char c.

(** [re.split(r"(?<=[.!?])\s+", s)]: [s] cut at every run of whitespace that
    follows a full stop, an exclamation or a question mark.  [punct] tells
    whether the previous character is such a mark, [skip] whether a
    separator is being read; the head of the result is the piece being
    read. *)
Fixpoint split_sentences (skip punct : bool) (s : string) : list string :=
  match s with
  | "" => [""]
  | String c s' =>
      if Py.isspace c && (skip || punct) then
        if skip then split_sentences true false s'
        else "" :: split_sentences true false s'
      else
        match split_sentences false (is_stop c) s' with
        | p :: ps => String c p :: ps
        | [] => [String c ""]
        end
  end.

Definition requirement_keys : list string :=
  ["need"; "require"; "want"; "request"; "help"; "cannot"; "unable"; "fix";
   "access"; "please"].

Definition _extract_requirements (text : string) : string :=
  if Py.truthy text then
    let sentences := split_sentences false false (Py.strip text) in
    let reqs :=
      filter (λ s, Is_true (any_in requirement_keys (Py.lower s))) sentences in
    Py.join " " (take 3 reqs)
  else "".

(** The [result] dictionary of [analyze_email]: the heuristic baseline. *)
Definition heuristic_result (email_obj : Email) : Analysis :=
  let combined := Py.strip (subject email_obj +:+ "
" +:+ body email_obj) in
  {| sentiment := _sentiment combined;
     priority := _priority combined;
     requirements := _extract_requirements (body email_obj);
     contacts := _extract_contacts (body email_obj) |}.

Definition quoted (s : string) : string := dq +:+ s +:+ dq.

(** The f-string sent to the oracle. *)
Definition analysis_prompt (subject body : string) : string :=
  Py.join "
" [ "";
    "You are an assistant that extracts metadata from a support email.";
    "Analyze the email below and return a valid JSON object with exactly these keys:";
    "- " +:+ quoted "priority" +:+ ": one of [" +:+ quoted "Urgent" +:+ ", "
         +:+ quoted "Not urgent" +:+ "]";
    "- " +:+ quoted "sentiment" +:+ ": one of [" +:+ quoted "Positive" +:+ ", "
         +:+ quoted "Negative" +:+ ", " +:+ quoted "Neutral" +:+ "]";
    "- " +:+ quoted "requirements"
         +:+ ": short text summarizing the customer's request (1-2 sentences)";
    "- " +:+ quoted "contacts"
         +:+ ": comma-separated contact info (emails, phones) if present";
    "";
    "Email:";
    "Subject: " +:+ subject;
    "Body: " +:+ body;
    "";
    "Return *only* a JSON object.";
    "" ].

(** The text from the first [c] on. *)
Fixpoint from_first (c : ascii) (s : string) : option string :=
  match s with
  | "" => None
  | String a s' => if decide (a = c) then Some s else from_first c s'
  end.

(** The text up to the last [c], with it. *)
Fixpoint upto_last (c : ascii) (s : string) : option string :=
  match s with
  | "" => None
  | String a s' =>
      match upto_last c s' with
      | Some r => Some (String a r)
      | None => if decide (a = c) then Some (String a "") else None
      end
  end.

(** [m = re.search(r"\{.*\}", raw, re.S); m.group(0) if m else raw]: from
    the first opening brace to the last closing one. *)
Definition json_text (raw : string) : string :=
  match from_first "{" raw with
  | Some t => match upto_last "}" t with Some j => j | None => raw end
  | None => raw
  end.

Definition analyze_email (env : Env) (email_obj : Email) : Analysis :=
  let result := heuristic_result email_obj in
  if GEMINI_API_KEY env then
    match nlp_call_gemini env
            (analysis_prompt (subject email_obj) (body email_obj)) with
    | Some raw =>
        if Py.truthy raw then
          match json_loads env (json_text raw) with
          | Some parsed =>
              {| priority := or_else (assoc "priority" parsed) (priority result);
                 sentiment := or_else (assoc "sentiment" parsed) (sentiment result);
                 requirements :=
                   or_else (assoc "requirements" parsed) (requirements result);
                 contacts := or_else (assoc "contacts" parsed) (contacts result) |}
          | None => result
          end
        else result
    | None => result
    end
  else result.

End NlpService.

(* ===================================================================== *)
(** * Stable sorting, as [list.sort] and the sorter of SQLite deliver it *)
(* ===================================================================== *)

Module StableSort.
Section sort.
Context {A : Type} (leb : A → A → bool).

(** [x] goes in front of the first element that it precedes or equals: an
    element that was earlier in the input stays earlier among equals. *)
Fixpoint insert (x : A) (l : list A) : list A :=
  match l with
  | [] => [x]
  | y :: l' => if leb x y then x :: l else y :: insert x l'
  end.

Definition sort (l : list A) : list A := foldr insert [] l.

End sort.
End StableSort.

(* ===================================================================== *)
(** * services/response_service.py *)
(* ===================================================================== *)

Module ResponseService.

(** [re.findall(r"\w+", (text or "").lower())] *)
Definition _tokenize (env : Env) (text : string) : list string :=
  findall_words env (str_lower env text).

(** A match, as the dictionary of [retrieve_relevant_kb] holds it. *)
Record KbMatch : Type := { score : nat; text : string; source : string }.

(** The loop over the files: a file that cannot be read is skipped, one
    without a common token is left out. *)
Fixpoint candidates (env : Env) (email_tokens : gset string)
    (files : list (string * option string)) : list (nat * string * string) :=
  match files with
  | [] => []
  | (name, None) :: files' => candidates env email_tokens files'
  | (name, Some txt) :: files' =>
      let doc_tokens : gset string := list_to_set (_tokenize env txt) in
      let overlap := email_tokens ∩ doc_tokens in
      let score := size overlap in
      if (0 <? score)%nat
      then (score, txt, name) :: candidates env email_tokens files'
      else candidates env email_tokens files'
  end.

(** [candidates.sort(key=lambda x: x[0], reverse=True)]: highest score
    first, equal scores in the order of the list. *)
Definition by_score_desc (a b : nat * string * string) : bool :=
  (b.1.1 <=? a.1.1)%nat.

Definition retrieve_relevant_kb (env : Env) (email_body : string) (top_k : Z)
  : list KbMatch :=
  let email_tokens : gset string := list_to_set (_tokenize env email_body) in
  match KB_DIR env with
  | None => []
  | Some files =>
      if decide (email_tokens = ∅) then []
      else
        let sorted :=
          StableSort.sort by_score_desc (candidates env email_tokens files) in
        (λ c, {| score := c.1.1; text := c.1.2; source := c.2 |})
          <$> Py.slice_to top_k sorted
  end.


(** [f"[{c['source']}]\n{c['text']}"] joined by a rule. *)
Definition kb_text_of (contexts : list KbMatch) : string :=
  Py.join "

---

" ((λ c, "[" +:+ source c +:+ "]
" +:+ text c) <$> contexts).

Definition build_prompt (subject body kb_text : string) : string :=
  Py.join "
" ([ "You are a professional customer support agent. Write a concise, polite, empathetic reply.";
    "Customer message (subject): " +:+ subject;
    "Customer message (body): " +:+ body;
    "" ] ++
  (if Py.truthy kb_text then
     [ "Use the following knowledge-base excerpts to answer and reference them where appropriate:";
       kb_text;
       "" ]
   else []) ++
  [ "Constraints:";
    "- Maintain a friendly professional tone.";
    "- Acknowledge frustration if sentiment is Negative.";
    "- If the message mentions a product/feature, reference it.";
    "- Keep it short (4-8 sentences).";
    "- Do NOT include any internal notes or JSON, only the reply text." ]).

(** Step 4 of [generate_response], the fallback draft.  [sender.split]
    raises when the sender is [None]. *)
Definition fallback_draft (sender : option string) (analysis : Analysis)
  : option string :=
  let tone_open :=
    if decide (sentiment analysis ≠ "Negative")
    then "Thanks for reaching out."
    else "I'm really sorry for the trouble you're facing â€” thank you for reporting this." in
  let priority_line :=
    if decide (priority analysis = "Urgent")
    then "I've marked this as urgent and escalated it to our team."
    else "I've logged this request and our team will follow up." in
  let requirements :=
    or_else (Some (requirements analysis)) "the details you shared" in
  let closing :=
    "If you can share screenshots or any additional details, please reply to this message." in
  match sender with
  | None => None
  | Some sender =>
      Some ("Hi " +:+ Py.strip (Py.before "<" sender) +:+ ",

"
            +:+ tone_open +:+ " Based on your message, I understand: "
            +:+ requirements +:+ ".

"
            +:+ priority_line +:+ " " +:+ closing +:+ "

"
            +:+ "Best regards,
Support Team")
  end.

(** Steps 1 and 2 of [generate_response]: the prompt, with the excerpts
    of the knowledge base. *)
Definition reply_prompt (env : Env) (email_obj : Email) : string :=
  let contexts := retrieve_relevant_kb env (body email_obj) 3 in
  let kb_text := match contexts with [] => "" | _ => kb_text_of contexts end in
  build_prompt (subject email_obj) (body email_obj) kb_text.

Definition generate_response (env : Env) (email_obj : Email)
    (analysis : Analysis) : option string :=
  let prompt := reply_prompt env email_obj in
  let fallback := fallback_draft (sender email_obj) analysis in
  if GEMINI_API_KEY env then
    match response_call_gemini env prompt with
    | Some out => if Py.truthy out then Some (Py.strip out) else fallback
    | None => fallback
    end
  else fallback.

End ResponseService.

(* ===================================================================== *)
(** * utils/db.py *)
(* ===================================================================== *)

Module Db.

(** The dictionary bound to the [INSERT] of [upsert_emails]: the columns
    of table [emails] but [id]. *)
Record record : Type := {
  message_id : string;
  sender : option string;
  subject : string;
  body : string;
  received_at : string;
  priority : string;
  sentiment : string;
  requirements : string;
  contacts : string;
  draft_reply : string;
  status : string
}.

(** A row of table [emails], and what [fetch_emails] returns for it. *)
Record row : Type := { id : Z; data : record }.

(** The database file: the rows of [emails] in rowid order and the counter
    that [AUTOINCREMENT] keeps in [sqlite_sequence]. *)
Record db : Type := { emails : list row; sqlite_sequence : Z }.

(** [init_db]: [CREATE TABLE IF NOT EXISTS] makes an empty table in a new
    file and leaves an existing one as it is. *)
Definition init_db (file : option db) : db :=
  match file with
  | Some d => d
  | None => {| emails := []; sqlite_sequence := 0 |}
  end.

Definition has_message_id (m : string) (r : row) : bool :=
  bool_decide (message_id (data r) = m).

(** One execution of the [INSERT ... ON CONFLICT(message_id) DO UPDATE]
    statement.  The rowid is drawn from the counter before the [UNIQUE]
    constraint on [message_id] is checked; on a conflict the existing row
    keeps its [id] and takes every other column from the new record. *)
Definition upsert_one (d : db) (e : record) : db :=
  let rowid := sqlite_sequence d + 1 in
  if existsb (has_message_id (message_id e)) (emails d) then
    {| emails :=
         (λ r, if has_message_id (message_id e) r
               then {| id := id r; data := e |} else r) <$> emails d;
       sqlite_sequence := rowid |}
  else
    {| emails := emails d ++ [{| id := rowid; data := e |}];
       sqlite_sequence := rowid |}.

(** [cur.executemany(sql, emails)] *)
Definition upsert_emails (emails : list record) (d : db) : db :=
  match emails with
  | [] => d
  | _ => foldl upsert_one d emails
  end.

Section fetch.
  (** SQLite's [datetime(x)]: the text ['YYYY-MM-DD HH:MM:SS'] of the time
      value it reads in [x], whole seconds, or NULL ([None]) when it reads
      none. *)
Variable datetime : string → option string.

(** [CASE WHEN priority='Urgent' THEN 0 ELSE 1 END] *)
Definition priority_rank (r : row) : Z :=
  if decide (priority (data r) = "Urgent") then 0 else 1.

(** [ORDER BY ... DESC] on a text column: greater text first (bytewise
    comparison), NULL after every text. *)
Definition desc_leb (a b : option string) : bool :=
  match a, b with
  | _, None => true
  | None, Some _ => false
  | Some x, Some y => String.leb y x
  end.

Definition by_received (a b : row) : bool :=
  desc_leb (datetime (received_at (data a))) (datetime (received_at (data b))).

Definition by_priority_received (a b : row) : bool :=
  (priority_rank a <? priority_rank b) ||
  ((priority_rank a =? priority_rank b) && by_received a b).

(** [LIMIT ?]: a negative limit is no limit.  The [int] bound to [?] has
    to be an INTEGER of SQLite, of 64 bits; for another one [sqlite3]
    raises [OverflowError], which this function does not show: what is
    stated of a limit is stated of one that SQLite takes. *)
Definition sql_limit {A} (limit : Z) (l : list A) : list A :=
  if limit <? 0 then l else take (Z.to_nat limit) l.

(** Rows that compare equal come back in rowid order. *)
Definition fetch_emails (d : db) (order_by_priority : bool) (limit : Z)
  : list row :=
  if order_by_priority
  then sql_limit limit (StableSort.sort by_priority_received (emails d))
  else sql_limit limit (StableSort.sort by_received (emails d)).
End fetch.

(** The message identifier of a row. *)
Definition mid (r : row) : string := message_id (data r).

(** The [DO UPDATE] on one row. *)
Definition touch (e : record) (r : row) : row :=
  if has_message_id (message_id e) r then {| id := id r; data := e |} else r.

(** A sequence of [upsert_emails] calls, one per batch. *)
Definition run (batches : list (list record)) (d : db) : db :=
  foldl (λ d b, upsert_emails b d) d batches.

End Db.

(* ===================================================================== *)
(** * app.py *)
(* ===================================================================== *)

Module App.

(** An entry of a raw email dictionary. *)
Inductive field : Type :=
| Missing                 (* no such key *)
| Null                    (* the key holds None *)
| Str (s : string).

(** A raw email, as [fetch_support_emails] returns it. *)
Record RawEmail : Type := {
  raw_message_id : field;
  raw_sender : field;
  raw_subject : field;
  raw_body : field;
  raw_received_at : field
}.

(** [e.get(k)] *)
Definition get (f : field) : option string :=
  match f with Str s => Some s | _ => None end.

(** [e.get(k, "")] *)
Definition get_default (f : field) : option string :=
  match f with Str s => Some s | Null => None | Missing => Some "" end.

(** [f"{x}"] *)
Definition format (x : option string) : string :=
  match x with Some s => s | None => "None" end.

(** The built-in [hash] on a [str] or [None]. *)
Definition hash (env : Env) (x : option string) : Z :=
  match x with
  | None => hash_None env
  | Some s => if Py.truthy s then hash_str env s else 0
  end.

(** [f"{e.get('sender')}_{e.get('subject')}_{hash(e.get('body',''))}"] *)
Definition derived_message_id (env : Env) (e : RawEmail) : string :=
  format (get (raw_sender e)) +:+ "_" +:+ format (get (raw_subject e))
    +:+ "_" +:+ pretty (hash env (get_default (raw_body e))).

(** The dictionary [e_norm] of the [i]-th email of the batch. *)
Definition normalize (env : Env) (i : nat) (e : RawEmail) : Email :=
  {| message_id := or_else (get (raw_message_id e)) (derived_message_id env e);
     sender := get_default (raw_sender e);
     subject := or_else (get_default (raw_subject e)) "";
     body := or_else (get_default (raw_body e)) "";
     received_at := or_else (get (raw_received_at e)) (utcnow_isoformat env i) |}.

(** The body of the loop: the record [rec], or the exception of
    [generate_response]. *)
Definition process (env : Env) (i : nat) (e : RawEmail) : option Db.record :=
  let e_norm := normalize env i e in
  let analysis := NlpService.analyze_email env e_norm in
  draft ← ResponseService.generate_response env e_norm analysis;
  Some {| Db.message_id := message_id e_norm;
          Db.sender := sender e_norm;
          Db.subject := subject e_norm;
          Db.body := body e_norm;
          Db.received_at := received_at e_norm;
          Db.priority := priority analysis;
          Db.sentiment := sentiment analysis;
          Db.requirements := requirements analysis;
          Db.contacts := contacts analysis;
          Db.draft_reply := draft;
          Db.status := "pending" |}.

Fixpoint process_all (env : Env) (i : nat) (raw_emails : list RawEmail)
  : option (list Db.record) :=
  match raw_emails with
  | [] => Some []
  | e :: rest =>
      r ← process env i e;
      rs ← process_all env (S i) rest;
      Some (r :: rs)
  end.

(** [sort_key]: the pair [(pri, ts_key)] of an [int] and a float, the
    float as the rational number that it is. *)
Definition sort_key (env : Env) (r : Db.record) : Z * Q :=
  let pri := if decide (Db.priority r = "Urgent") then 0 else 1 in
  let ts_key :=
    match fromisoformat_timestamp env (Db.received_at r) with
    | Some ts => (- ts)%Q
    | None => 0%Q
    end in
  (pri, ts_key).

(** Order of the pairs, as Python compares tuples. *)
Definition key_leb (a b : Z * Q) : bool :=
  (a.1 <? b.1) || ((a.1 =? b.1) && Qle_bool a.2 b.2).

Definition by_sort_key (env : Env) (a b : Db.record) : bool :=
  key_leb (sort_key env a) (sort_key env b).

(** [ingest_latest], from the list that [fetch_support_emails] returned:
    the database after the call, [None] when the call raises (nothing has
    been written then). *)
Definition ingest_latest (env : Env) (raw_emails : list RawEmail) (d : Db.db)
  : option Db.db :=
  processed ← process_all env 0 raw_emails;
  let processed := StableSort.sort (by_sort_key env) processed in
  Some (match processed with
        | [] => d
        | _ => Db.upsert_emails processed d
        end).

End App.

(* ===================================================================== *)
(** * app.py: the dashboard *)
(* ===================================================================== *)

Module Dashboard.

(** The dictionary [stats]. *)
Record Stats : Type := {
  total : Z;
  urgent : Z;
  positive : Z;
  negative : Z;
  neutral : Z;
  last_24h : Z;
  resolved : Z;
  pending : Z
}.

(** [sum(1 for e in emails if p(e))] *)
Fixpoint count_if {A} (p : A → bool) (l : list A) : Z :=
  match l with
  | [] => 0
  | x :: l' => (if p x then 1 else 0) + count_if p l'
  end.

Section dashboard.
(** SQLite's [datetime()], as in [Db]. *)
Variable datetime : string → option string.
(** [datetime.fromisoformat(s)]: [None] when it raises, else whether the
    value carries a time zone and its reading in microseconds. *)
Variable fromisoformat : string → option (bool * Z).
(** [datetime.utcnow()] of the dashboard, a value without time zone, in
    microseconds. *)
Variable now : Z.

(** [(parse_iso(e.get("received_at")) or now) >= last_24h_cutoff]: a
    timestamp that cannot be read counts as [now]; comparing a value that
    carries a time zone with the cutoff, which carries none, raises. *)
Definition is_recent (e : Db.row) : option bool :=
  let last_24h_cutoff := now - 24 * 3600 * 1000000 in
  match fromisoformat (Db.received_at (Db.data e)) with
  | None => Some (last_24h_cutoff <=? now)
  | Some (false, t) => Some (last_24h_cutoff <=? t)
  | Some (true, _) => None
  end.

Fixpoint count_recent (emails : list Db.row) : option Z :=
  match emails with
  | [] => Some 0
  | e :: rest =>
      b ← is_recent e;
      n ← count_recent rest;
      Some ((if b : bool then 1 else 0) + n)
  end.

Definition has (f : Db.record → string) (v : string) (e : Db.row) : bool :=
  bool_decide (f (Db.data e) = v).

(** [dashboard], up to the call of [render_template]: the database after
    the call, and the rows and statistics handed to the template, [None]
    when the call raises. *)
Definition dashboard (env : Env) (raw_emails : list App.RawEmail) (d : Db.db)
  : Db.db * option (list Db.row * Stats) :=
  match App.ingest_latest env raw_emails d with
  | None => (d, None)
  | Some d' =>
      let emails := Db.fetch_emails datetime d' true 200 in
      let total := Z.of_nat (length emails) in
      let resolved := count_if (has Db.status "resolved") emails in
      (d',
       last_24 ← count_recent emails;
       Some (emails,
             {| total := total;
                urgent := count_if (has Db.priority "Urgent") emails;
                positive := count_if (has Db.sentiment "Positive") emails;
                negative := count_if (has Db.sentiment "Negative") emails;
                neutral := count_if (has Db.sentiment "Neutral") emails;
                last_24h := last_24;
                resolved := resolved;
                pending := total - resolved |}))
  end.

End dashboard.
End Dashboard.

(* ===================================================================== *)
(** * services/email_service.py *)
(* ===================================================================== *)

Module EmailService.

Definition FILTER_KEYWORDS : list string := ["support"; "query"; "request"; "help"].

(** The dictionary appended to [mails]. *)
Record Mail : Type := {
  sender : string;
  subject : string;
  body : string;
  date : string
}.

(** [l[k:]] for a list and an [int], which may be negative: a negative [k]
    counts from the end. *)
Definition slice_from {A} (k : Z) (l : list A) : list A :=
  if 0 <=? k then drop (Z.to_nat k) l
  else drop (length l - Z.to_nat (- k))%nat l.

(** [any(kw.lower() in subject.lower() for kw in FILTER_KEYWORDS)] *)
Definition is_support (subject : string) : bool :=
  existsb (λ kw, Py.contains (Py.lower kw) (Py.lower subject)) FILTER_KEYWORDS.

(** The loop over the messages in the order they are visited.  A message is
    [None] when fetching or decoding it raises: the loop ends there and the
    mails gathered so far are returned. *)
Fixpoint gather (messages : list (option Mail)) : list Mail :=
  match messages with
  | [] => []
  | None :: _ => []
  | Some m :: rest =>
      if is_support (subject m) then m :: gather rest else gather rest
  end.

(** [load_emails_from_gmail]: [inbox] is [None] when connecting, logging in
    or searching raises, else the messages of the inbox in the order of
    their identifiers, each decoded as the loop decodes it (sender, first
    fragment of the subject, plain-text body, date). *)
Definition load_emails_from_gmail (inbox : option (list (option Mail)))
    (limit : Z) : list Mail :=
  match inbox with
  | None => []
  | Some messages => gather (reverse (slice_from (- limit) messages))
  end.

End EmailService.

(* ===================================================================== *)
(** * Vocabulary of the statements, and sample data *)
(* ===================================================================== *)

(** The same run with another reading of the clock. *)
Definition set_clock (clock : nat → string) (env : Env) : Env :=
  {| utcnow_isoformat := clock;
     hash_str := hash_str env;
     hash_None := hash_None env;
     GEMINI_API_KEY := GEMINI_API_KEY env;
     nlp_call_gemini := nlp_call_gemini env;
     response_call_gemini := response_call_gemini env;
     json_loads := json_loads env;
     KB_DIR := KB_DIR env;
     str_lower := str_lower env;
     findall_words := findall_words env;
     fromisoformat_timestamp := fromisoformat_timestamp env |}.

(** The same run under another salt of [hash]. *)
Definition set_hash (h : string → Z) (env : Env) : Env :=
  {| utcnow_isoformat := utcnow_isoformat env;
     hash_str := h;
     hash_None := hash_None env;
     GEMINI_API_KEY := GEMINI_API_KEY env;
     nlp_call_gemini := nlp_call_gemini env;
     response_call_gemini := response_call_gemini env;
     json_loads := json_loads env;
     KB_DIR := KB_DIR env;
     str_lower := str_lower env;
     findall_words := findall_words env;
     fromisoformat_timestamp := fromisoformat_timestamp env |}.

(** The same run with the credential set and an oracle that answers [reply]
    to every prompt of both services. *)
Definition set_oracle (reply : option string) (env : Env) : Env :=
  {| utcnow_isoformat := utcnow_isoformat env;
     hash_str := hash_str env;
     hash_None := hash_None env;
     GEMINI_API_KEY := true;
     nlp_call_gemini := λ _, reply;
     response_call_gemini := λ _, reply;
     json_loads := json_loads env;
     KB_DIR := KB_DIR env;
     str_lower := str_lower env;
     findall_words := findall_words env;
     fromisoformat_timestamp := fromisoformat_timestamp env |}.

(** The same run over another knowledge-base directory. *)
Definition set_kb (kb : option (list (string * option string))) (env : Env) : Env :=
  {| utcnow_isoformat := utcnow_isoformat env;
     hash_str := hash_str env;
     hash_None := hash_None env;
     GEMINI_API_KEY := GEMINI_API_KEY env;
     nlp_call_gemini := nlp_call_gemini env;
     response_call_gemini := response_call_gemini env;
     json_loads := json_loads env;
     KB_DIR := kb;
     str_lower := str_lower env;
     findall_words := findall_words env;
     fromisoformat_timestamp := fromisoformat_timestamp env |}.

(** [datetime.fromisoformat(s).timestamp()] on the timestamps of the
    examples, for a process whose local zone is UTC: the floats
    1704103200.1, 1704103200.9, -1.0, 1704099600.0 and 1704132000.0. *)
Definition sample_timestamp (s : string) : option Q :=
  if decide (s = "2024-01-01T10:00:00.100000+00:00")
  then Some (3573763434296115 # 2097152)
  else if decide (s = "2024-01-01T10:00:00.900000+00:00")
  then Some (3573763435973837 # 2097152)
  else if decide (s = "1969-12-31T23:59:59+00:00") then Some (-1 # 1)
  else if decide (s = "2024-01-01T09:00:00.000000") then Some (1704099600 # 1)
  else if decide (s = "2024-01-01T18:00:00.000000") then Some (1704132000 # 1)
  else None.

(** [re.findall(r"\w+", s)] on ASCII text, where the word characters are
    the ASCII letters, the ASCII digits and the underscore.  On ASCII text
    [s.lower()] is [Py.lower s]. *)
Definition ascii_words (s : string) : list string :=
  Re.findall (Re.Plus (Re.Cls Re.word)) s.

(** SQLite's [datetime(s)] on the same timestamps. *)
Definition sample_datetime (s : string) : option string :=
  if decide (s = "2024-01-01T10:00:00.100000+00:00") then Some "2024-01-01 10:00:00"
  else if decide (s = "2024-01-01T10:00:00.900000+00:00") then Some "2024-01-01 10:00:00"
  else if decide (s = "1969-12-31T23:59:59+00:00") then Some "1969-12-31 23:59:59"
  else if decide (s = "2024-01-01T09:00:00.000000") then Some "2024-01-01 09:00:00"
  else if decide (s = "2024-01-01T18:00:00.000000") then Some "2024-01-01 18:00:00"
  else None.

(** [hash("hello")] of CPython 3.11 under [PYTHONHASHSEED=1] and under
    [PYTHONHASHSEED=2]. *)
Definition hash_seed_1 (s : string) : Z :=
  if decide (s = "hello") then -1712148659304476210 else 1.
Definition hash_seed_2 (s : string) : Z :=
  if decide (s = "hello") then -2276782357261739453 else 1.

(** A run at nine in the morning: no credential, no knowledge base. *)
Definition morning : Env :=
  {| utcnow_isoformat := λ _, "2024-01-01T09:00:00.000000";
     hash_str := hash_seed_1;
     hash_None := 613068;
     GEMINI_API_KEY := false;
     nlp_call_gemini := λ _, None;
     response_call_gemini := λ _, None;
     json_loads := λ _, None;
     KB_DIR := None;
     str_lower := Py.lower;
     findall_words := ascii_words;
     fromisoformat_timestamp := sample_timestamp |}.

(** The same run at six in the evening. *)
Definition evening : Env := set_clock (λ _, "2024-01-01T18:00:00.000000") morning.

(** A raw email with an identifier and no timestamp. *)
Definition undated : App.RawEmail :=
  {| App.raw_message_id := App.Str "<m1@mail>";
     App.raw_sender := App.Str "Ann <ann@example.com>";
     App.raw_subject := App.Str "Help with login";
     App.raw_body := App.Str "hello";
     App.raw_received_at := App.Missing |}.

(** The same email with a timestamp. *)
Definition dated : App.RawEmail :=
  {| App.raw_message_id := App.Str "<m1@mail>";
     App.raw_sender := App.Str "Ann <ann@example.com>";
     App.raw_subject := App.Str "Help with login";
     App.raw_body := App.Str "hello";
     App.raw_received_at := App.Str "2024-01-01T10:00:00.100000+00:00" |}.

(** A record of the store with the given identifier, timestamp and
    priority. *)
Definition sample_record (m t p : string) : Db.record :=
  {| Db.message_id := m;
     Db.sender := Some "Ann <ann@example.com>";
     Db.subject := "Help with login";
     Db.body := "hello";
     Db.received_at := t;
     Db.priority := p;
     Db.sentiment := "Neutral";
     Db.requirements := "";
     Db.contacts := "";
     Db.draft_reply := "Hi Ann,";
     Db.status := "pending" |}.

(** Whether a raw email carries a timestamp that [or] keeps. *)
Definition timestamped (e : App.RawEmail) : bool :=
  match App.raw_received_at e with
  | App.Str t => Py.truthy t
  | _ => false
  end.

(** Claim C3, the part that fails: within a priority tier no record with an
    unreadable timestamp comes before one with a readable timestamp. *)
Definition unparsed_after_parsed (env : Env) (out : list Db.record) : Prop :=
  ∀ i j a b, (i < j)%nat → out !! i = Some a → out !! j = Some b →
    (Db.priority a = "Urgent" ↔ Db.priority b = "Urgent") →
    fromisoformat_timestamp env (Db.received_at a) = None →
    fromisoformat_timestamp env (Db.received_at b) = None.

(** Claim C6, the order within a tier: the received timestamps never
    increase, read as [app.py] reads them. *)
Definition newest_first (ts : string → option Q) (out : list Db.row) : Prop :=
  ∀ i j a b ta tb, (i < j)%nat → out !! i = Some a → out !! j = Some b →
    (Db.priority (Db.data a) = "Urgent" ↔ Db.priority (Db.data b) = "Urgent") →
    ts (Db.received_at (Db.data a)) = Some ta →
    ts (Db.received_at (Db.data b)) = Some tb →
    (tb <= ta)%Q.

(** Two emails of one day, the later one stored last. *)
Definition evening_store : Db.db :=
  {| Db.emails :=
       [{| Db.id := 1;
           Db.data := sample_record "<m1@mail>" "2024-01-01T09:00:00.000000" "Not urgent" |};
        {| Db.id := 2;
           Db.data := sample_record "<m2@mail>" "2024-01-01T18:00:00.000000" "Not urgent" |}];
     Db.sqlite_sequence := 2 |}.

(** Two emails received in the same second, the later one stored last. *)
Definition same_second : Db.db :=
  {| Db.emails :=
       [{| Db.id := 1;
           Db.data := sample_record "<m1@mail>" "2024-01-01T10:00:00.100000+00:00" "Not urgent" |};
        {| Db.id := 2;
           Db.data := sample_record "<m2@mail>" "2024-01-01T10:00:00.900000+00:00" "Not urgent" |}];
     Db.sqlite_sequence := 2 |}.

(** The set of the lowercase word tokens of a text. *)
Definition token_set (env : Env) (text : string) : gset string :=
  list_to_set (ResponseService._tokenize env text).

(** The documents of the directory that can be read, in the order of the
    directory, each with the number of tokens it shares with the query. *)
Definition scored (env : Env) (query : string)
    (files : list (string * option string)) : list (nat * string * string) :=
  omap (λ f, txt ← f.2;
             Some (size (token_set env query ∩ token_set env txt), txt, f.1))
       files.

Definition to_match (c : nat * string * string) : ResponseService.KbMatch :=
  {| ResponseService.score := c.1.1;
     ResponseService.text := c.1.2;
     ResponseService.source := c.2 |}.

(** A knowledge base of three documents, one of them foreign to the
    queries of the examples. *)
Definition sample_kb : list (string * option string) :=
  [("billing.txt", Some "Invoices are sent monthly.");
   ("password.txt", Some "To reset your password open the login page.");
   ("login.txt", Some "Login problems: reset the password, then clear cookies.")].

(** The morning run over this knowledge base. *)
Definition helpdesk : Env := set_kb (Some sample_kb) morning.

(** A word of [ws] is a substring of [text], letter case apart. *)
Definition occurs_in (ws : list string) (text : string) : Prop :=
  ∃ w pre post, w ∈ ws ∧ Py.lower text = pre +:+ w +:+ post.

(** A word with an end that is not whitespace, if it has one. *)
Fixpoint rclean (w : string) : bool :=
  match w with
  | "" => true
  | String a w' =>
      match w' with
      | "" => negb (Py.isspace a)
      | _ => rclean w'
      end
  end.

(** A word that neither begins nor ends with whitespace and is not empty. *)
Definition clean (w : string) : bool :=
  match w with
  | "" => false
  | String a _ => negb (Py.isspace a) && rclean w
  end.

(** The strict order of [sorted] on texts. *)
Definition string_lt (a b : string) : Prop := String.ltb a b = true.

(** [r] holds the distinct elements of [matches] in increasing order, the
    three least of them when there are more than three. *)
Definition least_three (matches r : list string) : Prop :=
  StronglySorted string_lt r ∧
  (length r ≤ 3)%nat ∧
  (∀ x, x ∈ r → x ∈ matches) ∧
  (∀ x, x ∈ matches →
        x ∈ r ∨ (length r = 3%nat ∧ ∀ y, y ∈ r → string_lt y x)).

(** The layout of the contacts text from its two segments. *)
Definition contacts_layout (es ps : list string) : string :=
  match es, ps with
  | [], [] => ""
  | _ :: _, [] => "Emails: " +:+ Py.join ", " es
  | [], _ :: _ => "Phones: " +:+ Py.join ", " ps
  | _ :: _, _ :: _ =>
      "Emails: " +:+ Py.join ", " es +:+ " | " +:+ "Phones: " +:+ Py.join ", " ps
  end.

(** Claim C10, the part that fails: the four fields of a raw email that
    holds them all are those of the normalized email. *)
Definition keeps_present_fields (env : Env) (i : nat) (e : App.RawEmail) : Prop :=
  ∀ m s sub b,
    App.raw_message_id e = App.Str m → App.raw_sender e = App.Str s →
    App.raw_subject e = App.Str sub → App.raw_body e = App.Str b →
    message_id (App.normalize env i e) = m ∧
    sender (App.normalize env i e) = Some s ∧
    subject (App.normalize env i e) = sub ∧
    body (App.normalize env i e) = b.

(** A raw email whose identifier and timestamp are present and empty. *)
Definition unnamed : App.RawEmail :=
  {| App.raw_message_id := App.Str "";
     App.raw_sender := App.Str "Ann <ann@example.com>";
     App.raw_subject := App.Str "Help with login";
     App.raw_body := App.Str "hello";
     App.raw_received_at := App.Str "" |}.

(** An entry that [or] replaces: missing, null or empty. *)
Definition falsy (f : App.field) : Prop :=
  f = App.Missing ∨ f = App.Null ∨ f = App.Str "".

(** The oracle gave nothing to work with: no text (the call failed, timed
    out or answered nothing) or, for the analysis, a text that is no JSON
    object. *)
Definition no_reply (reply : option string) : Prop :=
  reply = None ∨ reply = Some "".
Definition unparseable (env : Env) (reply : option string) : Prop :=
  ∃ raw, reply = Some raw ∧ json_loads env (NlpService.json_text raw) = None.

(** A normalized email. *)
Definition ann_email : Email :=
  {| message_id := "<m1@mail>";
     sender := Some "Ann <ann@example.com>";
     subject := "Help with login";
     body := "I cannot log in. Please reset my password.";
     received_at := "2024-01-01T10:00:00.100000+00:00" |}.

(** A raw email without an identifier. *)
Definition anonymous : App.RawEmail :=
  {| App.raw_message_id := App.Missing;
     App.raw_sender := App.Str "ann@example.com";
     App.raw_subject := App.Str "Help";
     App.raw_body := App.Str "hello";
     App.raw_received_at := App.Str "2024-01-01T10:00:00.100000+00:00" |}.

(** The morning run with the credential set: an oracle that answers every
    prompt with a sentence, and one that answers every prompt with three
    blanks.  [json.loads] raises on both answers. *)
Definition talkative : Env := set_oracle (Some "Sorry, no JSON here.") morning.
Definition blank : Env := set_oracle (Some "   ") morning.


(** The row identifiers grow along the table, are positive and never pass
    the counter of [AUTOINCREMENT]. *)
Definition well_numbered (d : Db.db) : Prop :=
  0 ≤ Db.sqlite_sequence d ∧
  StronglySorted Z.lt (Db.id <$> Db.emails d) ∧
  Forall (λ r, 0 < Db.id r ≤ Db.sqlite_sequence d) (Db.emails d).

(** A store whose only row has been marked resolved. *)
Definition resolved_store : Db.db :=
  {| Db.emails :=
       [{| Db.id := 1;
           Db.data :=
             {| Db.message_id := "<m1@mail>"; Db.sender := None;
                Db.subject := ""; Db.body := "";
                Db.received_at := ""; Db.priority := "Urgent";
                Db.sentiment := "Neutral"; Db.requirements := "";
                Db.contacts := ""; Db.draft_reply := "";
                Db.status := "resolved" |} |}];
     Db.sqlite_sequence := 1 |}.

(** Every character of [s] satisfies [p]. *)
Fixpoint string_forall (p : ascii → bool) (s : string) : bool :=
  match s with
  | "" => true
  | String c s' => p c && string_forall p s'
  end.

(** [p] is a part of [s]. *)
Definition substring_of (p s : string) : Prop :=
  ∃ pre post, s = pre +:+ p +:+ post.

(** An [int] that SQLite takes as an INTEGER: [sqlite3] raises
    [OverflowError] when it is asked to bind another one. *)
Definition sqlite_integer (n : Z) : Prop := - 2 ^ 63 ≤ n < 2 ^ 63.

(** A character of ASCII. *)
Definition is_ascii (c : ascii) : bool := (nat_of_ascii c <? 128)%nat.

(** The capital I with a dot and the Kelvin sign, in UTF-8. *)
Definition dotted_capital_I : string := String "196" (String "176" "").
Definition kelvin_sign : string := String "226" (String "132" (String "170" "")).

(** The ASCII letters of a text lowered, byte by byte. *)
Fixpoint lower_letters (s : string) : string :=
  match s with
  | "" => ""
  | String c s' => String (Py.lower_char c) (lower_letters s')
  end.

(** A word of ASCII characters without the letter k and whose last
    character is not the letter i. *)
Fixpoint plain (w : string) : bool :=
  match w with
  | "" => true
  | String a w' =>
      (nat_of_ascii a <? 128)%nat && negb (bool_decide (a = "k"%char)) &&
      match w' with
      | "" => negb (bool_decide (a = "i"%char))
      | _ => plain w'
      end
  end.

(* ===================================================================== *)
(** * Facts on stable sorting *)
(* ===================================================================== *)

Module StableSortFacts.
Section facts.
Context {A : Type} (leb : A → A → bool).
Local Abbreviation insert := (StableSort.insert leb).
Local Abbreviation sort := (StableSort.sort leb).
Local Abbreviation le := (λ a b, leb a b = true).

Lemma insert_perm x l : insert x l ≡ₚ x :: l.
Proof.
  induction l as [|y l IH]; simpl; [done|].
  destruct (leb x y); [done|].
  rewrite IH. apply Permutation_swap.
Qed.

Lemma sort_perm l : sort l ≡ₚ l.
Proof.
  induction l as [|x l IH]; simpl; [done|].
  by rewrite insert_perm, IH.
Qed.

Lemma sort_length l : length (sort l) = length l.
Proof. by rewrite sort_perm. Qed.

Lemma sort_elem_of x l : x ∈ sort l ↔ x ∈ l.
Proof. by rewrite sort_perm. Qed.

(** Elements of a class [P] whose members all precede one another keep
    the order they had in the input. *)
Lemma insert_filter (P : A → Prop) `{∀ x, Decision (P x)} x l :
  (∀ y, P x → P y → leb x y = true) →
  filter P (insert x l) = filter P (x :: l).
Proof.
  intros HP. induction l as [|y l IH]; simpl; [done|].
  destruct (leb x y) eqn:Hxy; [done|].
  rewrite !filter_cons in *.
  destruct (decide (P y)) as [Hy|Hy], (decide (P x)) as [Hx|Hx];
    try (rewrite IH; done).
  rewrite HP in Hxy; done.
Qed.

Lemma sort_stable (P : A → Prop) `{∀ x, Decision (P x)} l :
  (∀ x y, P x → P y → leb x y = true) →
  filter P (sort l) = filter P l.
Proof.
  intros HP. induction l as [|x l IH]; simpl; [done|].
  rewrite insert_filter by eauto.
  rewrite !filter_cons, IH. done.
Qed.

Section ordered.
Hypothesis leb_total : ∀ a b, leb a b = true ∨ leb b a = true.
Hypothesis leb_trans : ∀ a b c, leb a b = true → leb b c = true → leb a c = true.

Lemma insert_sorted x l :
  StronglySorted le l → StronglySorted le (insert x l).
Proof.
  induction 1 as [|y l Hl IH Hy]; simpl.
  - repeat constructor.
  - destruct (leb x y) eqn:Hxy.
    + constructor; [by constructor|].
      constructor; [done|].
      eapply Forall_impl; [exact Hy|]. intros z Hz. by eapply leb_trans.
    + constructor; [done|].
      rewrite Forall_forall. intros z Hz.
      rewrite insert_perm in Hz. apply elem_of_cons in Hz as [->|Hz].
      * destruct (leb_total x y); congruence.
      * rewrite Forall_forall in Hy. by apply Hy.
Qed.

Lemma sort_sorted l : StronglySorted le (sort l).
Proof.
  induction l as [|x l IH]; simpl; [constructor|].
  by apply insert_sorted.
Qed.
End ordered.
End facts.

(** The index form of sortedness. *)
Lemma sorted_lookup {A} (R : relation A) l i j a b :
  StronglySorted R l → (i < j)%nat →
  l !! i = Some a → l !! j = Some b → R a b.
Proof.
  intros Hs. revert i j.
  induction Hs as [|x l Hl IH Hx]; intros i j Hij Hi Hj; [done|].
  destruct j as [|j]; [lia|]. simpl in Hj.
  destruct i as [|i]; simpl in Hi.
  - simplify_eq. rewrite Forall_forall in Hx.
    apply Hx. by eapply list_elem_of_lookup_2.
  - eapply (IH i j); [lia|done..].
Qed.

Lemma sorted_impl {A} (R S : relation A) l :
  (∀ a b, R a b → S a b) → StronglySorted R l → StronglySorted S l.
Proof.
  intros HRS. induction 1 as [|x l Hl IH Hx]; constructor; [done|].
  eapply Forall_impl; [exact Hx|]. auto.
Qed.
End StableSortFacts.

(* ===================================================================== *)
(** * Facts on the store *)
(* ===================================================================== *)

Module DbFacts.
Import Db.

Lemma existsb_has_message_id m (l : list row) :
  existsb (has_message_id m) l = true ↔ m ∈ mid <$> l.
Proof.
  rewrite existsb_exists, list_elem_of_fmap. unfold has_message_id, mid.
  split.
  - intros (r & Hr%list_elem_of_In & Hm%bool_decide_eq_true). eauto.
  - intros (r & -> & Hr). exists r. rewrite <-list_elem_of_In.
    split; [done|]. by apply bool_decide_eq_true.
Qed.

Lemma mid_touch e r : mid (touch e r) = mid r.
Proof.
  unfold touch, has_message_id, mid. case_bool_decide; simpl; congruence.
Qed.

Lemma id_touch e r : id (touch e r) = id r.
Proof. unfold touch. by destruct (has_message_id _ _). Qed.

Lemma touch_other e r : mid r ≠ message_id e → touch e r = r.
Proof.
  unfold touch, has_message_id, mid. intros. by rewrite bool_decide_eq_false_2.
Qed.

Lemma touch_same e r : mid r = message_id e → touch e r = {| id := id r; data := e |}.
Proof.
  unfold touch, has_message_id, mid. intros. by rewrite bool_decide_eq_true_2.
Qed.

Lemma emails_upsert_one d e :
  emails (upsert_one d e) =
    if decide (message_id e ∈ mid <$> emails d)
    then touch e <$> emails d
    else emails d ++ [{| id := sqlite_sequence d + 1; data := e |}].
Proof.
  unfold upsert_one.
  destruct (existsb _ _) eqn:Hex.
  - apply existsb_has_message_id in Hex. by rewrite decide_True.
  - rewrite decide_False; [done|].
    intros Hin%existsb_has_message_id. congruence.
Qed.

Lemma mids_touch e (l : list row) : mid <$> (touch e <$> l) = mid <$> l.
Proof.
  rewrite <-list_fmap_compose. apply list_fmap_ext.
  intros i r _. simpl. apply mid_touch.
Qed.

Lemma mids_upsert_one d e :
  mid <$> emails (upsert_one d e) =
    if decide (message_id e ∈ mid <$> emails d)
    then mid <$> emails d
    else (mid <$> emails d) ++ [message_id e].
Proof.
  rewrite emails_upsert_one. case_decide.
  - apply mids_touch.
  - by rewrite fmap_app.
Qed.

Lemma upsert_emails_foldl l d : upsert_emails l d = foldl upsert_one d l.
Proof. by destruct l. Qed.

Lemma run_concat batches d : run batches d = foldl upsert_one d (concat batches).
Proof.
  revert d. induction batches as [|b bs IH]; intros d; simpl; [done|].
  rewrite foldl_app, IH. f_equal. apply upsert_emails_foldl.
Qed.

(** ** Uniqueness of the message identifier *)

Lemma NoDup_upsert_one d e :
  NoDup (mid <$> emails d) → NoDup (mid <$> emails (upsert_one d e)).
Proof.
  intros Hnd. rewrite mids_upsert_one. case_decide; [done|].
  apply NoDup_app. split_and!; [done| |apply NoDup_singleton].
  intros m Hm ->%list_elem_of_singleton. done.
Qed.

Lemma NoDup_fold_upsert l d :
  NoDup (mid <$> emails d) → NoDup (mid <$> emails (foldl upsert_one d l)).
Proof.
  revert d. induction l as [|e l IH]; intros d Hd; simpl; [done|].
  by apply IH, NoDup_upsert_one.
Qed.

Lemma filter_mid_absent m (l : list row) :
  m ∉ mid <$> l → filter (λ r, mid r = m) l = [].
Proof.
  intros Hm. induction l as [|r l IH]; [done|].
  rewrite fmap_cons, not_elem_of_cons in Hm. destruct Hm as [Hr Hl].
  rewrite filter_cons_False by congruence. auto.
Qed.

Lemma filter_mid_unique m (l : list row) :
  NoDup (mid <$> l) → m ∈ mid <$> l →
  ∃ r, r ∈ l ∧ filter (λ r, mid r = m) l = [r].
Proof.
  induction l as [|r l IH]; intros Hnd Hin.
  - by apply elem_of_nil in Hin.
  - rewrite fmap_cons in Hnd, Hin. apply NoDup_cons in Hnd as [Hr Hnd].
    destruct (decide (mid r = m)) as [Heq|Hne].
    + exists r. split; [left|]. rewrite filter_cons_True by done.
      rewrite filter_mid_absent; [done|]. by rewrite <-Heq.
    + apply elem_of_cons in Hin as [?|Hin]; [congruence|].
      destruct (IH Hnd Hin) as (r' & Hr' & Hf). exists r'.
      split; [by right|]. by rewrite filter_cons_False.
Qed.

Lemma filter_mid_touch m e (l : list row) :
  filter (λ r, mid r = m) (touch e <$> l) = touch e <$> filter (λ r, mid r = m) l.
Proof.
  induction l as [|r l IH]; [done|].
  rewrite fmap_cons, !filter_cons, mid_touch.
  case_decide; rewrite IH; done.
Qed.

Lemma filter_upsert_one_same d e :
  NoDup (mid <$> emails d) →
  ∃ i, filter (λ r, mid r = message_id e) (emails (upsert_one d e))
       = [{| id := i; data := e |}].
Proof.
  intros Hnd. rewrite emails_upsert_one. case_decide as Hin.
  - destruct (filter_mid_unique _ _ Hnd Hin) as (r & Hr & Hf).
    exists (id r). rewrite filter_mid_touch, Hf. simpl.
    rewrite touch_same; [done|].
    assert (r ∈ filter (λ r, mid r = message_id e) (emails d)) as Hrf
      by (rewrite Hf; left).
    by apply list_elem_of_filter in Hrf as [? _].
  - eexists. rewrite filter_app, filter_mid_absent by done.
    by rewrite filter_cons_True.
Qed.

Lemma filter_upsert_one_other d e m :
  m ≠ message_id e →
  filter (λ r, mid r = m) (emails (upsert_one d e))
  = filter (λ r, mid r = m) (emails d).
Proof.
  intros Hne. rewrite emails_upsert_one. case_decide.
  - rewrite filter_mid_touch.
    rewrite <-(list_fmap_id (filter _ (emails d))) at 2.
    apply list_fmap_ext. intros i r Hr%list_elem_of_lookup_2.
    apply list_elem_of_filter in Hr as [Hm _].
    apply touch_other. simpl. congruence.
  - rewrite filter_app, filter_cons_False, filter_nil, app_nil_r; done.
Qed.

Lemma filter_fold_upsert_last d before e after :
  NoDup (mid <$> emails d) →
  (∀ e', e' ∈ after → message_id e' ≠ message_id e) →
  ∃ i, filter (λ r, mid r = message_id e)
         (emails (foldl upsert_one d (before ++ e :: after)))
       = [{| id := i; data := e |}].
Proof.
  intros Hnd. induction after as [|x after IH] using rev_ind; intros Hafter.
  - rewrite foldl_app. simpl.
    apply filter_upsert_one_same. by apply NoDup_fold_upsert.
  - destruct IH as [i Hi].
    { intros e' He'. apply Hafter. set_solver. }
    exists i. rewrite app_comm_cons, app_assoc, foldl_app. simpl.
    rewrite filter_upsert_one_other; [done|].
    apply not_eq_sym, Hafter. set_solver.
Qed.

(** ** A batch upserted over itself *)

Lemma present_fold_upsert l d m :
  m ∈ mid <$> emails d → m ∈ mid <$> emails (foldl upsert_one d l).
Proof.
  revert d. induction l as [|e l IH]; intros d Hm; simpl; [done|].
  apply IH. rewrite mids_upsert_one. case_decide; set_solver.
Qed.

Lemma batch_present_fold_upsert l d e :
  e ∈ l → message_id e ∈ mid <$> emails (foldl upsert_one d l).
Proof.
  revert d. induction l as [|x l IH]; intros d He.
  - by apply elem_of_nil in He.
  - simpl. apply elem_of_cons in He as [->|He]; [|by apply IH].
    apply present_fold_upsert. rewrite mids_upsert_one. case_decide; set_solver.
Qed.

Lemma fold_upsert_present l d :
  (∀ e, e ∈ l → message_id e ∈ mid <$> emails d) →
  emails (foldl upsert_one d l)
  = (λ r, foldl (λ r e, touch e r) r l) <$> emails d.
Proof.
  revert d. induction l as [|e l IH]; intros d Hl; simpl.
  - by rewrite list_fmap_id.
  - assert (emails (upsert_one d e) = touch e <$> emails d) as Hup.
    { rewrite emails_upsert_one, decide_True; [done|]. apply Hl. left. }
    rewrite IH.
    + rewrite Hup, <-list_fmap_compose. done.
    + intros e' He'. rewrite Hup, mids_touch. apply Hl. by right.
Qed.

Lemma row_of_fold_upsert d before e after r :
  (∀ e', e' ∈ after → message_id e' ≠ message_id e) →
  r ∈ emails (foldl upsert_one d (before ++ e :: after)) →
  mid r = message_id e → data r = e.
Proof.
  induction after as [|x after IH] using rev_ind; intros Hafter Hr Hm.
  - rewrite foldl_app in Hr. simpl in Hr.
    rewrite emails_upsert_one in Hr. case_decide.
    + apply list_elem_of_fmap in Hr as (r0 & -> & _).
      rewrite mid_touch in Hm. by rewrite touch_same.
    + apply elem_of_app in Hr as [Hr|Hr%list_elem_of_singleton]; [|by subst].
      exfalso. rewrite <-Hm in *. set_solver.
  - rewrite app_comm_cons, app_assoc, foldl_app in Hr. simpl in Hr.
    assert (message_id x ≠ message_id e) as Hx by (apply Hafter; set_solver).
    apply IH; [intros; apply Hafter; set_solver| |done].
    rewrite emails_upsert_one in Hr. case_decide.
    + apply list_elem_of_fmap in Hr as (r0 & -> & Hr0).
      rewrite mid_touch in Hm. rewrite touch_other; [done|congruence].
    + apply elem_of_app in Hr as [Hr|Hr%list_elem_of_singleton]; [done|].
      subst r. simpl in Hm. unfold mid in Hm. simpl in Hm. congruence.
Qed.

Lemma fold_touch_fixed l r :
  (∀ before e after, l = before ++ e :: after → mid r = message_id e →
     (∀ e', e' ∈ after → message_id e' ≠ message_id e) → data r = e) →
  foldl (λ r e, touch e r) r l = r.
Proof.
  induction l as [|x l IH] using rev_ind; intros Hl; [done|].
  rewrite foldl_app. simpl.
  assert (∀ l, mid (foldl (λ r e, touch e r) r l) = mid r
             ∧ id (foldl (λ r e, touch e r) r l) = id r) as Hkeep.
  { clear. intros l. induction l as [|y l IH] using rev_ind; [done|].
    rewrite foldl_app. simpl. rewrite mid_touch, id_touch. done. }
  destruct (decide (mid r = message_id x)) as [Heq|Hne].
  - rewrite touch_same by (by rewrite (proj1 (Hkeep l))).
    rewrite (proj2 (Hkeep l)).
    rewrite <-(Hl l x []); [by destruct r|done|done|].
    intros e' He'. by apply elem_of_nil in He'.
  - rewrite touch_other by (by rewrite (proj1 (Hkeep l))).
    apply IH. intros before e after -> Hm Hafter.
    apply (Hl before e (after ++ [x])); [by rewrite <-app_assoc|done|].
    intros e' [He'|He']%elem_of_app; [by apply Hafter|].
    apply list_elem_of_singleton in He' as ->. congruence.
Qed.

Lemma upsert_twice l d :
  emails (foldl upsert_one (foldl upsert_one d l) l)
  = emails (foldl upsert_one d l).
Proof.
  rewrite fold_upsert_present by (intros; by apply batch_present_fold_upsert).
  rewrite <-(list_fmap_id (emails (foldl upsert_one d l))) at 2.
  apply list_fmap_ext. intros i r Hr%list_elem_of_lookup_2. simpl.
  apply fold_touch_fixed. intros before e after -> Hm Hafter.
  by eapply row_of_fold_upsert.
Qed.

End DbFacts.

(* ===================================================================== *)
(** * The claims on the store and on ingestion *)
(* ===================================================================== *)

(** C2. Whatever the sequence of [upsert_emails] calls on a new database,
    no two rows share a message identifier, and the identifier of a record
    that no later record of the sequence shares labels exactly one row,
    which holds that record.  The batches reach the statement as they are:
    the conflict clause of the statement alone keeps the identifiers
    apart. *)
Theorem upsert_one_row_per_message_id (batches : list (list Db.record)) :
  NoDup (Db.mid <$> Db.emails (Db.run batches (Db.init_db None))) ∧
  ∀ before e after,
    concat batches = before ++ e :: after →
    (∀ e', e' ∈ after → Db.message_id e' ≠ Db.message_id e) →
    ∃ i, filter (λ r, Db.mid r = Db.message_id e)
           (Db.emails (Db.run batches (Db.init_db None)))
         = [{| Db.id := i; Db.data := e |}].
Proof.
  rewrite DbFacts.run_concat. split.
  - apply DbFacts.NoDup_fold_upsert. simpl. constructor.
  - intros before e after -> Hafter.
    apply DbFacts.filter_fold_upsert_last; [simpl; constructor|done].
Qed.

Lemma upsert_one_row_per_message_id_witness :
  ∃ i, filter (λ r, Db.mid r = "<m1@mail>")
         (Db.emails
            (Db.run [[sample_record "<m1@mail>" "2024-01-01T10:00:00.100000+00:00" "Urgent"];
                     [sample_record "<m2@mail>" "" "Urgent";
                      sample_record "<m1@mail>" "1969-12-31T23:59:59+00:00" "Not urgent"]]
               (Db.init_db None)))
       = [{| Db.id := i;
             Db.data := sample_record "<m1@mail>" "1969-12-31T23:59:59+00:00" "Not urgent" |}].
Proof.
  apply (proj2 (upsert_one_row_per_message_id
    [[sample_record "<m1@mail>" "2024-01-01T10:00:00.100000+00:00" "Urgent"];
     [sample_record "<m2@mail>" "" "Urgent";
      sample_record "<m1@mail>" "1969-12-31T23:59:59+00:00" "Not urgent"]])
    [sample_record "<m1@mail>" "2024-01-01T10:00:00.100000+00:00" "Urgent";
     sample_record "<m2@mail>" "" "Urgent"]
    (sample_record "<m1@mail>" "1969-12-31T23:59:59+00:00" "Not urgent") []).
  - reflexivity.
  - intros e' He'. inversion He'.
Defined.

Module AppFacts.
Import App.

Lemma normalize_set_clock clock env i j e :
  timestamped e = true →
  normalize (set_clock clock env) i e = normalize env j e.
Proof.
  unfold timestamped, normalize. intros Ht.
  destruct (raw_received_at e) as [| |t]; try done. simpl.
  rewrite Ht. done.
Qed.

Lemma candidates_set_clock clock env tokens files :
  ResponseService.candidates (set_clock clock env) tokens files
  = ResponseService.candidates env tokens files.
Proof.
  induction files as [|[name [txt|]] files IH]; simpl; [done| |done].
  by rewrite IH.
Qed.

Lemma generate_response_set_clock clock env email_obj analysis :
  ResponseService.generate_response (set_clock clock env) email_obj analysis
  = ResponseService.generate_response env email_obj analysis.
Proof.
  unfold ResponseService.generate_response, ResponseService.reply_prompt,
    ResponseService.retrieve_relevant_kb.
  cbn [set_clock KB_DIR GEMINI_API_KEY response_call_gemini].
  destruct (KB_DIR env) as [files|]; [|done].
  by rewrite candidates_set_clock.
Qed.

Lemma process_set_clock clock env i j e :
  timestamped e = true →
  process (set_clock clock env) i e = process env j e.
Proof.
  intros Ht. unfold process.
  rewrite (normalize_set_clock clock env i j e Ht).
  by rewrite generate_response_set_clock.
Qed.

Lemma process_all_set_clock clock env i j l :
  Forall (λ e, timestamped e = true) l →
  process_all (set_clock clock env) i l = process_all env j l.
Proof.
  intros Hl. revert i j. induction Hl as [|e l He Hl IH]; intros i j; simpl; [done|].
  rewrite (process_set_clock clock env i j e He), (IH (S i) (S j)). done.
Qed.

End AppFacts.

(** C1 (amended). When every raw email of the batch carries a timestamp, a
    second ingestion of the batch, run at any later reading of the clock in
    the same process, against the same oracle answers and knowledge base,
    leaves table [emails] as the first ingestion left it: the same rows,
    with the same [id] and the same value in every column, hence the same
    number of rows. *)
Theorem ingest_twice_same_rows (env : Env) (later : nat → string)
    (raw_emails : list App.RawEmail) (d d1 : Db.db) :
  Forall (λ e, timestamped e = true) raw_emails →
  App.ingest_latest env raw_emails d = Some d1 →
  ∃ d2, App.ingest_latest (set_clock later env) raw_emails d1 = Some d2
        ∧ Db.emails d2 = Db.emails d1
        ∧ length (Db.emails d2) = length (Db.emails d1).
Proof.
  intros Hts. unfold App.ingest_latest.
  rewrite (AppFacts.process_all_set_clock later env 0 0 _ Hts).
  destruct (App.process_all env 0 raw_emails) as [processed|]; simpl; [|done].
  intros [= <-].
  change (App.by_sort_key (set_clock later env)) with (App.by_sort_key env).
  eexists. split; [done|].
  destruct (StableSort.sort (App.by_sort_key env) processed) as [|r l] eqn:Hs.
  - done.
  - rewrite !DbFacts.upsert_emails_foldl, DbFacts.upsert_twice. done.
Qed.

Lemma ingest_twice_same_rows_witness :
  ∃ d2, App.ingest_latest evening [dated]
          (default (Db.init_db None)
             (App.ingest_latest morning [dated] (Db.init_db None))) = Some d2
        ∧ Db.emails d2 =
            Db.emails (default (Db.init_db None)
                         (App.ingest_latest morning [dated] (Db.init_db None)))
        ∧ length (Db.emails d2) =
            length (Db.emails (default (Db.init_db None)
                         (App.ingest_latest morning [dated] (Db.init_db None)))).
Proof.
  apply (ingest_twice_same_rows morning (λ _, "2024-01-01T18:00:00.000000")
           [dated] (Db.init_db None)).
  - repeat constructor.
  - vm_compute. reflexivity.
Defined.

(** C1, as stated, fails: the timestamp of an email that carries none is the
    time of the run, and the second run overwrites it. *)
Lemma ingest_twice_changes_undated :
  ∃ d1 d2,
    App.ingest_latest morning [undated] (Db.init_db None) = Some d1 ∧
    App.ingest_latest evening [undated] d1 = Some d2 ∧
    Db.received_at <$> (Db.data <$> Db.emails d1) = ["2024-01-01T09:00:00.000000"] ∧
    Db.received_at <$> (Db.data <$> Db.emails d2) = ["2024-01-01T18:00:00.000000"] ∧
    Db.emails d2 ≠ Db.emails d1.
Proof.
  do 2 eexists. split_and!; [vm_compute; reflexivity..|].
  vm_compute. intros [=].
Qed.

(* ===================================================================== *)
(** * The two orders: the batch of [ingest_latest], the rows of [fetch_emails] *)
(* ===================================================================== *)

Module OrderFacts.

Lemma Qle_bool_total x y : Qle_bool x y = true ∨ Qle_bool y x = true.
Proof.
  rewrite !Qle_bool_iff.
  destruct (Qlt_le_dec x y) as [H|H]; [left; by apply Qlt_le_weak|by right].
Qed.

Lemma key_leb_spec a b :
  App.key_leb a b = true ↔ a.1 < b.1 ∨ a.1 = b.1 ∧ (a.2 <= b.2)%Q.
Proof.
  unfold App.key_leb.
  by rewrite orb_true_iff, andb_true_iff, Z.ltb_lt, Z.eqb_eq, Qle_bool_iff.
Qed.

Lemma key_leb_total a b : App.key_leb a b = true ∨ App.key_leb b a = true.
Proof.
  rewrite !key_leb_spec.
  destruct (Qle_bool_total a.2 b.2) as [H%Qle_bool_iff|H%Qle_bool_iff];
    destruct (Z.lt_trichotomy a.1 b.1) as [?|[?|?]]; auto.
Qed.

Lemma key_leb_trans a b c :
  App.key_leb a b = true → App.key_leb b c = true → App.key_leb a c = true.
Proof.
  rewrite !key_leb_spec. intros [?|[? Hab]] [?|[? Hbc]]; [left; lia..|].
  right. split; [lia|]. by eapply Qle_trans.
Qed.

Lemma string_leb_total x y : String.leb x y = true ∨ String.leb y x = true.
Proof. apply String.leb_total. Qed.

Lemma string_leb_trans x y z :
  String.leb x y = true → String.leb y z = true → String.leb x z = true.
Proof.
  intros Hxy%Is_true_true Hyz%Is_true_true. apply Is_true_true.
  exact (transitivity (R := String.le) Hxy Hyz).
Qed.

Lemma desc_leb_total a b : Db.desc_leb a b = true ∨ Db.desc_leb b a = true.
Proof.
  destruct a as [x|], b as [y|]; simpl; auto. apply string_leb_total.
Qed.

Lemma desc_leb_trans a b c :
  Db.desc_leb a b = true → Db.desc_leb b c = true → Db.desc_leb a c = true.
Proof.
  destruct a as [x|], b as [y|], c as [z|]; simpl; try done.
  intros. by eapply string_leb_trans.
Qed.

Section rows.
Variable datetime : string → option string.

Lemma by_received_total a b :
  Db.by_received datetime a b = true ∨ Db.by_received datetime b a = true.
Proof. apply desc_leb_total. Qed.

Lemma by_received_trans a b c :
  Db.by_received datetime a b = true → Db.by_received datetime b c = true →
  Db.by_received datetime a c = true.
Proof. apply desc_leb_trans. Qed.

Lemma by_priority_received_total a b :
  Db.by_priority_received datetime a b = true
  ∨ Db.by_priority_received datetime b a = true.
Proof.
  unfold Db.by_priority_received.
  destruct (by_received_total a b) as [-> | ->];
  destruct (Z.ltb_spec (Db.priority_rank a) (Db.priority_rank b)),
    (Z.ltb_spec (Db.priority_rank b) (Db.priority_rank a)),
    (Z.eqb_spec (Db.priority_rank a) (Db.priority_rank b)),
    (Z.eqb_spec (Db.priority_rank b) (Db.priority_rank a));
    simpl; auto; try lia; rewrite ?orb_true_r; auto.
Qed.

Lemma by_priority_received_trans a b c :
  Db.by_priority_received datetime a b = true →
  Db.by_priority_received datetime b c = true →
  Db.by_priority_received datetime a c = true.
Proof.
  unfold Db.by_priority_received.
  intros [Hab|[Hab Rab]%andb_true_iff]%orb_true_iff
         [Hbc|[Hbc Rbc]%andb_true_iff]%orb_true_iff;
    apply orb_true_iff;
    rewrite ?Z.ltb_lt, ?Z.eqb_eq, ?andb_true_iff, ?Z.ltb_lt, ?Z.eqb_eq in *.
  - left. lia.
  - left. lia.
  - left. lia.
  - right. split; [lia|]. by eapply by_received_trans.
Qed.

Lemma priority_rank_le a b :
  Db.priority_rank a ≤ Db.priority_rank b →
  Db.priority (Db.data b) = "Urgent" → Db.priority (Db.data a) = "Urgent".
Proof.
  unfold Db.priority_rank. intros Hle Hb.
  rewrite (decide_True _ _ Hb) in Hle. case_decide; [done|lia].
Qed.

Lemma priority_rank_eq a b :
  (Db.priority (Db.data a) = "Urgent" ↔ Db.priority (Db.data b) = "Urgent") →
  Db.priority_rank a = Db.priority_rank b.
Proof. unfold Db.priority_rank. intros H. repeat case_decide; tauto. Qed.

Lemma sql_limit_lookup {A} limit (l : list A) i x :
  Db.sql_limit limit l !! i = Some x → l !! i = Some x.
Proof.
  unfold Db.sql_limit. destruct (limit <? 0); [done|].
  by intros [? _]%lookup_take_Some.
Qed.

End rows.
End OrderFacts.

(** C3 (amended). The batch sort of [ingest_latest] returns the records of
    the batch, Urgent ones first; within a priority tier the timestamps
    never increase, compared as the floats that [timestamp()] makes of
    them; a timestamp that cannot be read raises nothing and takes the key
    0, the key of the epoch, so that within a tier a record without a
    readable timestamp comes after every record whose timestamp is later
    than the epoch and before every record whose timestamp is earlier. *)
Theorem ingest_sort_order (env : Env) (processed : list Db.record) :
  StableSort.sort (App.by_sort_key env) processed ≡ₚ processed ∧
  (∀ r, fromisoformat_timestamp env (Db.received_at r) = None →
        (App.sort_key env r).2 = 0%Q) ∧
  ∀ i j a b, (i < j)%nat →
    StableSort.sort (App.by_sort_key env) processed !! i = Some a →
    StableSort.sort (App.by_sort_key env) processed !! j = Some b →
    (Db.priority b = "Urgent" → Db.priority a = "Urgent") ∧
    ((Db.priority a = "Urgent" ↔ Db.priority b = "Urgent") →
     match fromisoformat_timestamp env (Db.received_at a),
           fromisoformat_timestamp env (Db.received_at b) with
     | Some ta, Some tb => (tb <= ta)%Q
     | None, Some tb => (tb <= 0)%Q
     | Some ta, None => (0 <= ta)%Q
     | None, None => True
     end).
Proof.
  split_and!.
  - apply StableSortFacts.sort_perm.
  - intros r Hr. unfold App.sort_key. by rewrite Hr.
  - intros i j a b Hij Ha Hb.
    assert (App.by_sort_key env a b = true) as Hab.
    { eapply (StableSortFacts.sorted_lookup
               (λ a b, App.by_sort_key env a b = true) _ i j); [|done..].
      apply StableSortFacts.sort_sorted.
      - intros x y. apply OrderFacts.key_leb_total.
      - intros x y z. apply OrderFacts.key_leb_trans. }
    apply OrderFacts.key_leb_spec in Hab. unfold App.sort_key in Hab.
    cbn [fst snd] in Hab.
    split.
    + intros Hb'. rewrite (decide_True _ _ Hb') in Hab.
      case_decide; [done|lia].
    + intros Htier.
      assert ((if decide (Db.priority a = "Urgent") then 0 else 1)
              = (if decide (Db.priority b = "Urgent") then 0 else 1)) as Heq
        by (repeat case_decide; tauto).
      destruct Hab as [?|[_ Hts]]; [lia|].
      destruct (fromisoformat_timestamp env (Db.received_at a)) as [ta|],
        (fromisoformat_timestamp env (Db.received_at b)) as [tb|]; [| | |done].
      * by apply Qopp_le_compat in Hts; rewrite !Qopp_involutive in Hts.
      * apply Qopp_le_compat in Hts. by rewrite Qopp_involutive in Hts.
      * by apply Qopp_le_compat in Hts; rewrite Qopp_involutive in Hts.
Qed.

Lemma ingest_sort_order_witness :
  Db.priority (sample_record "<m3@mail>" "2024-01-01T10:00:00.100000+00:00" "Urgent")
  = "Urgent"
  ∧ (1704099600 # 1 <= 3573763434296115 # 2097152)%Q.
Proof.
  destruct (proj2 (proj2 (ingest_sort_order morning
    [sample_record "<m1@mail>" "2024-01-01T18:00:00.000000" "Not urgent";
     sample_record "<m2@mail>" "2024-01-01T09:00:00.000000" "Urgent";
     sample_record "<m3@mail>" "2024-01-01T10:00:00.100000+00:00" "Urgent"]))
    0%nat 1%nat
    (sample_record "<m3@mail>" "2024-01-01T10:00:00.100000+00:00" "Urgent")
    (sample_record "<m2@mail>" "2024-01-01T09:00:00.000000" "Urgent"))
    as [Hfirst Hnewest].
  - lia.
  - reflexivity.
  - reflexivity.
  - split; [by apply Hfirst|]. by apply Hnewest.
Defined.

(** C3, as stated, fails: a timestamp before 1970 has a positive key, and
    the record that holds it is sorted after a record of its tier whose
    timestamp cannot be read. *)
Lemma unreadable_timestamp_before_old_one :
  ¬ unparsed_after_parsed morning
      (StableSort.sort (App.by_sort_key morning)
         [sample_record "<m1@mail>" "not a date" "Not urgent";
          sample_record "<m2@mail>" "1969-12-31T23:59:59+00:00" "Not urgent"]).
Proof.
  intros H.
  specialize (H 0%nat 1%nat
    (sample_record "<m1@mail>" "not a date" "Not urgent")
    (sample_record "<m2@mail>" "1969-12-31T23:59:59+00:00" "Not urgent")).
  assert (sample_timestamp "1969-12-31T23:59:59+00:00" = None) as Habs.
  { apply H; [lia|reflexivity|reflexivity|done|reflexivity]. }
  vm_compute in Habs. discriminate.
Qed.

(** C6. [fetch_emails] orders the rows by [datetime(received_at)], which
    reads whole seconds.  Of two emails of the same priority that were
    received in the same second, the one stored first comes back first,
    with [order_by_priority] and without it, although the other one is the
    newer: the received timestamps of the rows returned are not in
    non-increasing order. *)
Theorem fetch_emails_same_second_older_first :
  Db.message_id ∘ Db.data <$> Db.fetch_emails sample_datetime same_second true 200
    = ["<m1@mail>"; "<m2@mail>"]
  ∧ Db.message_id ∘ Db.data <$> Db.fetch_emails sample_datetime same_second false 200
    = ["<m1@mail>"; "<m2@mail>"]
  ∧ ¬ newest_first sample_timestamp
        (Db.fetch_emails sample_datetime same_second true 200)
  ∧ ¬ newest_first sample_timestamp
        (Db.fetch_emails sample_datetime same_second false 200).
Proof.
  assert (∀ order,
    ¬ newest_first sample_timestamp
        (Db.fetch_emails sample_datetime same_second order 200)) as Hnot.
  { intros order H.
    specialize (H 0%nat 1%nat
      {| Db.id := 1;
         Db.data := sample_record "<m1@mail>" "2024-01-01T10:00:00.100000+00:00" "Not urgent" |}
      {| Db.id := 2;
         Db.data := sample_record "<m2@mail>" "2024-01-01T10:00:00.900000+00:00" "Not urgent" |}
      (3573763434296115 # 2097152)%Q (3573763435973837 # 2097152)%Q).
    assert (3573763435973837 # 2097152 <= 3573763434296115 # 2097152)%Q as Habs.
    { apply H; [lia|by destruct order|by destruct order|done|reflexivity..]. }
    vm_compute in Habs. by apply Habs. }
  split_and!; [vm_compute; reflexivity..|apply Hnot|apply Hnot].
Qed.

(* ===================================================================== *)
(** * Retrieval from the knowledge base *)
(* ===================================================================== *)

Module KbFacts.
Import ResponseService.

Lemma candidates_scored env query files :
  candidates env (token_set env query) files
  = filter (λ c, (0 < c.1.1)%nat) (scored env query files).
Proof.
  induction files as [|[name [txt|]] files IH]; simpl; [done| |done].
  fold (token_set env txt). unfold scored in *. simpl.
  rewrite filter_cons. simpl.
  destruct (Nat.ltb_spec 0 (size (token_set env query ∩ token_set env txt))).
  - rewrite decide_True by done. by rewrite IH.
  - rewrite decide_False by lia. done.
Qed.

Lemma by_score_desc_total a b :
  by_score_desc a b = true ∨ by_score_desc b a = true.
Proof.
  unfold by_score_desc.
  destruct (Nat.leb_spec b.1.1 a.1.1), (Nat.leb_spec a.1.1 b.1.1); auto; lia.
Qed.

Lemma by_score_desc_trans a b c :
  by_score_desc a b = true → by_score_desc b c = true → by_score_desc a c = true.
Proof. unfold by_score_desc. rewrite !Nat.leb_le. lia. Qed.

Lemma token_set_empty env text :
  token_set env text = ∅ ↔ _tokenize env text = [].
Proof.
  unfold token_set. split; [|by intros ->].
  destruct (_tokenize env text) as [|t l]; [done|]. set_solver.
Qed.

End KbFacts.

(** C7. [retrieve_relevant_kb] returns nothing for a query without a word
    token or when the directory does not exist.  Otherwise the documents
    that can be read are scored by the size of the intersection of the set
    of lowercase word tokens of the query with that of the document; those
    of score 0 are left out; the others are ranked by decreasing score,
    documents of the same score in the order of the directory; and the
    slice [[:top_k]] of the ranking is returned, which for a number
    [top_k] of matches (not negative) holds the first [top_k] of them, at
    most [top_k]. *)
Theorem retrieve_relevant_kb_ranking (env : Env) (query : string) (top_k : Z) :
  (ResponseService._tokenize env query = [] ∨ KB_DIR env = None →
   ResponseService.retrieve_relevant_kb env query top_k = []) ∧
  ∀ files, KB_DIR env = Some files → ResponseService._tokenize env query ≠ [] →
    ∃ ranked,
      ResponseService.retrieve_relevant_kb env query top_k
        = to_match <$> Py.slice_to top_k ranked ∧
      ranked ≡ₚ filter (λ c, (0 < c.1.1)%nat) (scored env query files) ∧
      StronglySorted (λ a b, (b.1.1 ≤ a.1.1)%nat) ranked ∧
      (∀ k, filter (λ c, c.1.1 = k) ranked
            = filter (λ c, c.1.1 = k)
                (filter (λ c, (0 < c.1.1)%nat) (scored env query files))) ∧
      (0 ≤ top_k →
       Py.slice_to top_k ranked = take (Z.to_nat top_k) ranked ∧
       (length (ResponseService.retrieve_relevant_kb env query top_k)
        ≤ Z.to_nat top_k)%nat).
Proof.
  unfold ResponseService.retrieve_relevant_kb. fold (token_set env query). split.
  - intros [Hq%KbFacts.token_set_empty|Hkb].
    + rewrite Hq. by destruct (KB_DIR env).
    + by rewrite Hkb.
  - intros files -> Hq.
    rewrite decide_False by (by rewrite KbFacts.token_set_empty).
    exists (StableSort.sort ResponseService.by_score_desc
              (ResponseService.candidates env (token_set env query) files)).
    rewrite <-KbFacts.candidates_scored. split_and!.
    + done.
    + apply StableSortFacts.sort_perm.
    + eapply StableSortFacts.sorted_impl;
        [|apply StableSortFacts.sort_sorted;
          [apply KbFacts.by_score_desc_total|apply KbFacts.by_score_desc_trans]].
      intros a b Hab. by apply Nat.leb_le in Hab.
    + intros k. apply StableSortFacts.sort_stable.
      intros x y Hx Hy. unfold ResponseService.by_score_desc.
      apply Nat.leb_le. simpl in *. lia.
    + intros Hk. unfold Py.slice_to.
      destruct (Z.leb_spec 0 top_k); [|lia].
      split; [done|]. rewrite length_fmap, length_take. lia.
Qed.

Lemma retrieve_relevant_kb_ranking_witness :
  (∃ ranked,
    ResponseService.retrieve_relevant_kb helpdesk "How do I reset my password?" 1
      = to_match <$> Py.slice_to 1 ranked ∧
    ranked ≡ₚ filter (λ c, (0 < c.1.1)%nat)
                (scored helpdesk "How do I reset my password?" sample_kb) ∧
    StronglySorted (λ a b, (b.1.1 ≤ a.1.1)%nat) ranked ∧
    (∀ k, filter (λ c, c.1.1 = k) ranked
          = filter (λ c, c.1.1 = k)
              (filter (λ c, (0 < c.1.1)%nat)
                 (scored helpdesk "How do I reset my password?" sample_kb))) ∧
    Py.slice_to 1 ranked = take (Z.to_nat 1) ranked ∧
    (length (ResponseService.retrieve_relevant_kb helpdesk
               "How do I reset my password?" 1)
     ≤ Z.to_nat 1)%nat)
  ∧ ResponseService._tokenize helpdesk "How do I reset my password?"
    = ["how"; "do"; "i"; "reset"; "my"; "password"]
  ∧ scored helpdesk "How do I reset my password?" sample_kb
    = [(0%nat, "Invoices are sent monthly.", "billing.txt");
       (2%nat, "To reset your password open the login page.", "password.txt");
       (2%nat, "Login problems: reset the password, then clear cookies.",
        "login.txt")]
  ∧ ResponseService.retrieve_relevant_kb helpdesk "How do I reset my password?" 1
    = [to_match (2%nat, "To reset your password open the login page.",
                 "password.txt")].
Proof.
  split_and!; [|vm_compute; reflexivity..].
  destruct (proj2 (retrieve_relevant_kb_ranking helpdesk
                     "How do I reset my password?" 1) sample_kb)
    as (ranked & Hr & Hperm & Hsorted & Hstable & Hcap).
  - reflexivity.
  - vm_compute. discriminate.
  - exists ranked. split_and!; [done..|apply Hcap; lia|apply Hcap; lia].
Defined.

(* ===================================================================== *)
(** * Facts on text *)
(* ===================================================================== *)

Module PyFacts.
Import Py.

Lemma append_cons c s t : String c s +:+ t = String c (s +:+ t).
Proof. done. Qed.

Lemma append_nil_l t : "" +:+ t = t.
Proof. done. Qed.

Lemma append_nil_r t : t +:+ "" = t.
Proof. induction t as [|c t IH]; [done|]. by rewrite append_cons, IH. Qed.

Lemma append_assoc a b c : (a +:+ b) +:+ c = a +:+ b +:+ c.
Proof.
  induction a as [|x a IH]; [done|].
  by rewrite !append_cons, IH.
Qed.

Lemma substring_of_refl s : substring_of s s.
Proof.
  exists "", "". rewrite append_nil_l.
  induction s as [|c s IH]; [done|]. by rewrite append_cons, <-IH.
Qed.

Lemma substring_of_cons c p s : substring_of p s → substring_of p (String c s).
Proof. intros (pre & post & ->). by exists (String c pre), post. Qed.

Lemma substring_of_trans p q s :
  substring_of p q → substring_of q s → substring_of p s.
Proof.
  intros (a & b & ->) (c & d & ->). exists (c +:+ a), (b +:+ d).
  by rewrite !append_assoc.
Qed.


Lemma startswith_spec w s : startswith w s = true ↔ ∃ post, s = w +:+ post.
Proof.
  revert s. induction w as [|a w IH]; intros s; simpl.
  - split; [eauto|done].
  - destruct s as [|b s].
    + split; [done|]. by intros [post Hpost].
    + case_decide as Hab.
      * subst b. rewrite IH. split; intros [post Hpost]; exists post.
        -- by rewrite append_cons, Hpost.
        -- rewrite append_cons in Hpost. congruence.
      * split; [done|]. intros [post Hpost].
        rewrite append_cons in Hpost. congruence.
Qed.

(** [w in s] holds exactly when [s] is some text, then [w], then some
    text. *)
Lemma contains_spec w s :
  contains w s = true ↔ ∃ pre post, s = pre +:+ w +:+ post.
Proof.
  split.
  - induction s as [|c s IH]; simpl.
    + rewrite orb_false_r. intros [post ->]%startswith_spec. by exists "", post.
    + intros [[post ->]%startswith_spec|Hs]%orb_true_iff.
      * by exists "", post.
      * destruct (IH Hs) as (pre & post & ->). by exists (String c pre), post.
  - intros (pre & post & ->). induction pre as [|c pre IH].
    + rewrite append_nil_l.
      assert (startswith w (w +:+ post) = true) as Hw
        by (apply startswith_spec; eauto).
      destruct (w +:+ post); simpl; by rewrite Hw.
    + rewrite append_cons. simpl. rewrite IH. apply orb_true_r.
Qed.

Lemma lower_dotted r :
  lower (String "196" (String "176" r))
  = String "i" (String "204" (String "135" (lower r))).
Proof. done. Qed.

Lemma lower_kelvin r :
  lower (String "226" (String "132" (String "170" r))) = String "k" (lower r).
Proof. done. Qed.

(** One step of [lower]: the text begins with one of the two characters
    outside ASCII that [lower] knows, or its first byte is lowered. *)
Lemma lower_step s :
  (∃ r, s = String "196" (String "176" r)) ∨
  (∃ r, s = String "226" (String "132" (String "170" r))) ∨
  match s with
  | "" => True
  | String c r =>
      lower s = String (lower_char c) (lower r) ∧
      startswith dotted_capital_I s = false ∧ startswith kelvin_sign s = false
  end.
Proof.
  destruct s as [|c [|c2 r2]]; [by right; right| |].
  { right; right. split; [done|]. simpl. by repeat case_decide. }
  cbn [lower]. case_bool_decide as H1.
  { destruct H1 as [-> ->]. left. by exists r2. }
  right. destruct r2 as [|c3 r3].
  { right. split; [done|]. simpl. split.
    - repeat case_decide; try done. subst. by destruct H1.
    - repeat case_decide; done. }
  case_bool_decide as H2.
  { destruct H2 as (-> & -> & ->). left. by exists r3. }
  right. split; [done|]. simpl. split.
  - repeat case_decide; try done. subst. by destruct H1.
  - repeat case_decide; try done. subst. by destruct H2.
Qed.

Lemma isspace_lower_char c : isspace (lower_char c) = isspace c.
Proof. by destruct c as [[] [] [] [] [] [] [] []]. Qed.

Lemma lower_lstrip s : lower (lstrip s) = lstrip (lower s).
Proof.
  induction s as [|c s IH]; [done|].
  destruct (lower_step (String c s)) as [[r Hr]|[[r Hr]|(Hl & _)]].
  - rewrite Hr. reflexivity.
  - rewrite Hr. reflexivity.
  - rewrite Hl. cbn [lstrip]. rewrite isspace_lower_char.
    destruct (isspace c); [done|]. by rewrite Hl.
Qed.

Lemma rstrip_cons c s :
  isspace c = false → rstrip (String c s) = String c (rstrip s).
Proof. intros Hc. cbn [rstrip]. rewrite Hc. by destruct (rstrip s). Qed.

Lemma rstrip_prefix s : ∃ post, s = rstrip s +:+ post.
Proof.
  induction s as [|c s [post IH]]; simpl; [by exists ""|].
  destruct (rstrip s) as [|b r] eqn:Hr.
  - destruct (isspace c).
    + by exists (String c s).
    + exists s. done.
  - exists post. rewrite append_cons. by rewrite <-IH.
Qed.

Lemma startswith_app w p q :
  startswith w p = true → startswith w (p +:+ q) = true.
Proof.
  revert p. induction w as [|a w IH]; intros p; [done|].
  destruct p as [|b p]; [done|]. rewrite append_cons. cbn [startswith].
  case_decide; [apply IH|done].
Qed.

Lemma lower_cons c s : ∃ a t, lower (String c s) = String a t.
Proof.
  destruct (lower_step (String c s)) as [[r ->]|[[r ->]|(-> & _)]]; eauto.
Qed.

Lemma lower_rstrip s : lower (rstrip s) = rstrip (lower s).
Proof.
  remember (String.length s) as n eqn:Hn. revert s Hn.
  induction (lt_wf n) as [n _ IH]. intros s ->.
  destruct (lower_step s) as [[r ->]|[[r ->]|Hs]].
  - rewrite (rstrip_cons "196"), (rstrip_cons "176") by done.
    rewrite !lower_dotted.
    rewrite (rstrip_cons "i"), (rstrip_cons "204"), (rstrip_cons "135") by done.
    by rewrite (IH (String.length r)); [|simpl; lia|].
  - rewrite (rstrip_cons "226"), (rstrip_cons "132"), (rstrip_cons "170") by done.
    rewrite !lower_kelvin, (rstrip_cons "k") by done.
    by rewrite (IH (String.length r)); [|simpl; lia|].
  - destruct s as [|c s]; [done|]. destruct Hs as (Hl & Hd & Hk).
    rewrite Hl. cbn [rstrip].
    rewrite <-(IH (String.length s) ltac:(simpl; lia) s eq_refl).
    rewrite isspace_lower_char.
    destruct (rstrip_prefix s) as [post Hpost].
    destruct (rstrip s) as [|b r] eqn:Hr.
    + by destruct (isspace c).
    + destruct (lower_step (String c (String b r))) as [[x Hx]|[[x Hx]|(Hl' & _)]].
      * rewrite Hpost, <-append_cons in Hd.
        rewrite startswith_app in Hd; [done|]. by rewrite Hx.
      * rewrite Hpost, <-append_cons in Hk.
        rewrite startswith_app in Hk; [done|]. by rewrite Hx.
      * rewrite Hl'. by destruct (lower_cons b r) as (a & t & ->).
Qed.

Lemma lower_strip s : lower (strip s) = strip (lower s).
Proof. unfold strip. by rewrite lower_rstrip, lower_lstrip. Qed.


Lemma rclean_tail a w : rclean (String a w) = true → rclean w = true.
Proof. by destruct w. Qed.

Lemma contains_lstrip a w s :
  isspace a = false →
  contains (String a w) (lstrip s) = contains (String a w) s.
Proof.
  intros Ha. induction s as [|c s IH]; [done|].
  cbn [lstrip]. destruct (isspace c) eqn:Hc; [|done].
  rewrite IH. cbn [contains startswith].
  case_decide; [congruence|done].
Qed.

Lemma startswith_rstrip v w :
  rclean w = true → startswith w (rstrip v) = startswith w v.
Proof.
  revert w. induction v as [|c v IH]; intros w Hw; [done|].
  destruct w as [|a w]; [by destruct (rstrip (String c v))|].
  pose proof (rclean_tail _ _ Hw) as Hw'.
  specialize (IH w Hw'). cbn [rstrip].
  destruct (rstrip v) as [|b r] eqn:Hr.
  - destruct (isspace c) eqn:Hc; cbn [startswith].
    + case_decide as Hac; [|done]. subst a.
      rewrite <-IH. destruct w; [|done].
      simpl in Hw. by rewrite Hc in Hw.
    + case_decide; [|done]. by rewrite <-IH.
  - cbn [startswith]. case_decide; [|done]. by rewrite <-IH.
Qed.

Lemma contains_rstrip a w v :
  rclean (String a w) = true →
  contains (String a w) (rstrip v) = contains (String a w) v.
Proof.
  intros Hw. induction v as [|c v IH]; [done|].
  cbn [contains]. rewrite <-IH, <-(startswith_rstrip (String c v)) by done.
  cbn [rstrip]. destruct (rstrip v) as [|b r] eqn:Hr.
  - destruct (isspace c); cbn [contains]; by rewrite ?orb_false_r.
  - done.
Qed.

Lemma contains_strip w s :
  clean w = true → contains w (strip s) = contains w s.
Proof.
  destruct w as [|a w]; [done|]. simpl.
  intros [Ha%negb_true_iff Hw]%andb_true_iff.
  unfold strip. rewrite contains_rstrip by done. by apply contains_lstrip.
Qed.

(** ** Words that the two characters outside ASCII cannot spell *)

Lemma plain_cons a w :
  plain (String a w) = true →
  (nat_of_ascii a <? 128)%nat = true ∧ a ≠ "k"%char ∧
  (w = "" → a ≠ "i"%char) ∧ plain w = true.
Proof.
  cbn [plain]. intros [[Ha Hk%negb_true_iff]%andb_true_iff Hw]%andb_true_iff.
  apply bool_decide_eq_false in Hk. split_and!; [done..| |].
  - intros ->. by apply negb_true_iff, bool_decide_eq_false in Hw.
  - by destruct w.
Qed.

Lemma startswith_plain_high k c x :
  plain k = true → k ≠ "" → (nat_of_ascii c <? 128)%nat = false →
  startswith k (String c x) = false.
Proof.
  destruct k as [|a k]; [done|]. intros (Ha & _)%plain_cons _ Hc.
  cbn [startswith]. case_decide; [congruence|done].
Qed.

Lemma startswith_plain_k k x :
  plain k = true → k ≠ "" → startswith k (String "k" x) = false.
Proof.
  destruct k as [|a k]; [done|]. intros (_ & Ha & _)%plain_cons _.
  cbn [startswith]. case_decide; [done|done].
Qed.

Lemma startswith_plain_dotted_i k x :
  plain k = true → k ≠ "" → startswith k (String "i" (String "204" x)) = false.
Proof.
  destruct k as [|a k]; [done|]. intros (_ & _ & Hi & Hk)%plain_cons _.
  cbn [startswith]. case_decide as Ha; [subst a|done].
  destruct k as [|b k]; [by destruct Hi|].
  by apply startswith_plain_high.
Qed.

Lemma startswith_lower_plain k s :
  plain k = true → startswith k (lower s) = startswith k (lower_letters s).
Proof.
  revert s. induction k as [|a k IH]; intros s Hk; [done|].
  assert (String a k ≠ "") as Hne by done.
  destruct (lower_step s) as [[r ->]|[[r ->]|Hs]].
  - rewrite lower_dotted, startswith_plain_dotted_i by done.
    symmetry. by apply startswith_plain_high.
  - rewrite lower_kelvin, startswith_plain_k by done.
    symmetry. by apply startswith_plain_high.
  - destruct s as [|c s]; [done|]. destruct Hs as (-> & _).
    cbn [lower_letters startswith]. case_decide; [|done].
    destruct k as [|b k]; [done|]. apply IH.
    by apply plain_cons in Hk as (_ & _ & _ & Hk).
Qed.

Lemma contains_lower_plain k s :
  plain k = true → contains k (lower s) = contains k (lower_letters s).
Proof.
  intros Hk. destruct k as [|a k]; [by destruct (lower s), (lower_letters s)|].
  assert (String a k ≠ "") as Hne by done.
  remember (String.length s) as n eqn:Hn. revert s Hn.
  induction (lt_wf n) as [n _ IH]. intros s ->.
  destruct (lower_step s) as [[r ->]|[[r ->]|Hs]].
  - rewrite lower_dotted. cbn [contains lower_letters].
    rewrite startswith_plain_dotted_i by done.
    rewrite !(startswith_plain_high (String a k)) by done.
    cbn [orb]. by apply (IH (String.length r)); [simpl; lia|].
  - rewrite lower_kelvin. cbn [contains lower_letters].
    rewrite startswith_plain_k by done.
    rewrite !(startswith_plain_high (String a k)) by done.
    cbn [orb]. by apply (IH (String.length r)); [simpl; lia|].
  - destruct s as [|c s]; [done|]. destruct Hs as (Hl & _).
    pose proof (startswith_lower_plain (String a k) (String c s) Hk) as Hsw.
    rewrite Hl in *. cbn [lower_letters] in Hsw. cbn [contains lower_letters].
    rewrite Hsw. f_equal.
    by apply (IH (String.length s)); [simpl; lia|].
Qed.
End PyFacts.

(* ===================================================================== *)
(** * The heuristic analysis *)
(* ===================================================================== *)

Module NlpFacts.
Import NlpService.

Lemma any_in_strip ws s :
  forallb clean ws = true → any_in ws (Py.strip s) = any_in ws s.
Proof.
  unfold any_in. induction ws as [|w ws IH]; simpl; [done|].
  intros [Hw Hws]%andb_true_iff.
  by rewrite PyFacts.contains_strip, IH.
Qed.

Lemma any_in_occurs ws text :
  any_in ws (Py.lower text) = true ↔ occurs_in ws text.
Proof.
  unfold any_in, occurs_in. rewrite existsb_exists. split.
  - intros (w & Hw%list_elem_of_In & (pre & post & Hs)%PyFacts.contains_spec).
    eauto.
  - intros (w & pre & post & Hw%list_elem_of_In & Hs). exists w.
    split; [done|]. apply PyFacts.contains_spec. eauto.
Qed.

Lemma any_in_combined ws text :
  forallb clean ws = true →
  any_in ws (Py.lower (Py.strip text)) = true ↔ occurs_in ws text.
Proof.
  intros Hws. by rewrite PyFacts.lower_strip, any_in_strip, any_in_occurs.
Qed.

Lemma heuristic_sentiment email_obj :
  ∃ p n : bool,
    (p = true ↔ occurs_in POS_WORDS (subject email_obj +:+ "
" +:+ body email_obj)) ∧
    (n = true ↔ occurs_in NEG_WORDS (subject email_obj +:+ "
" +:+ body email_obj)) ∧
    sentiment (heuristic_result email_obj)
    = if p && negb n then "Positive"
      else if n && negb p then "Negative" else "Neutral".
Proof.
  eexists _, _. split_and!; [| |reflexivity].
  - by apply any_in_combined.
  - by apply any_in_combined.
Qed.

End NlpFacts.

(** C8. The heuristic sentiment of an email is decided by the two word
    sets over the text [subject + "\n" + body], letter case apart: Positive
    when a positive word occurs in it and no negative one, Negative when a
    negative word occurs and no positive one, Neutral when words of both
    sets occur or of neither.  Without a credential [analyze_email] returns
    this sentiment. *)
Theorem heuristic_sentiment_rule (env : Env) (email_obj : Email) :
  let text := subject email_obj +:+ "
" +:+ body email_obj in
  let result := sentiment (NlpService.heuristic_result email_obj) in
  (occurs_in NlpService.POS_WORDS text ∧ ¬ occurs_in NlpService.NEG_WORDS text →
   result = "Positive") ∧
  (occurs_in NlpService.NEG_WORDS text ∧ ¬ occurs_in NlpService.POS_WORDS text →
   result = "Negative") ∧
  (occurs_in NlpService.POS_WORDS text ∧ occurs_in NlpService.NEG_WORDS text
   ∨ ¬ occurs_in NlpService.POS_WORDS text ∧ ¬ occurs_in NlpService.NEG_WORDS text →
   result = "Neutral") ∧
  (GEMINI_API_KEY env = false →
   sentiment (NlpService.analyze_email env email_obj) = result).
Proof.
  intros text result.
  destruct (NlpFacts.heuristic_sentiment email_obj) as (p & n & Hp & Hn & Hs).
  fold text in Hp, Hn. fold result in Hs.
  split_and!; [rewrite Hs..|].
  - intros [Hpos Hneg]. apply Hp in Hpos. subst p.
    destruct n; [|done]. exfalso. by apply Hneg, Hn.
  - intros [Hneg Hpos]. apply Hn in Hneg. subst n.
    destruct p; [|done]. exfalso. by apply Hpos, Hp.
  - intros [[Hpos Hneg]|[Hpos Hneg]].
    + apply Hp in Hpos. apply Hn in Hneg. by subst.
    + destruct p; [exfalso; by apply Hpos, Hp|].
      destruct n; [exfalso; by apply Hneg, Hn|done].
  - intros Hkey. unfold NlpService.analyze_email. by rewrite Hkey.
Qed.

Lemma heuristic_sentiment_rule_witness :
  sentiment (NlpService.heuristic_result
               {| message_id := "<m1@mail>"; sender := Some "Ann";
                  subject := "Great service"; body := "Thanks a lot";
                  received_at := "" |}) = "Positive".
Proof.
  apply (proj1 (heuristic_sentiment_rule morning
    {| message_id := "<m1@mail>"; sender := Some "Ann";
       subject := "Great service"; body := "Thanks a lot";
       received_at := "" |})).
  split.
  - exists "great", "", " service
thanks a lot". split; [set_solver|reflexivity].
  - intros H%NlpFacts.any_in_occurs. vm_compute in H. discriminate.
Defined.

Module MatchFacts.
Import Re.

Lemma prefix_of_length_prefix n s : ∃ post, s = prefix_of_length n s +:+ post.
Proof.
  revert s. induction n as [|n IH]; intros s; [by exists s|].
  destruct s as [|c s]; [by exists ""|].
  destruct (IH s) as [post Hs]. exists post.
  cbn [prefix_of_length]. by rewrite PyFacts.append_cons, <-Hs.
Qed.

(** What a match leaves is an end of the text. *)
Lemma exec_suffix r s k out :
  exec r s k = Some out → ∃ pre s', s = pre +:+ s' ∧ k s' = Some out.
Proof.
  revert s k out. induction r as [p|r1 IH1 r2 IH2|r1 IH1 r2 IH2|r1 IH1|r1 IH1|n r1 IH1];
    intros s k out; cbn [exec].
  - destruct s as [|c s]; [done|]. destruct (p c); [|done].
    intros Hk. by exists (String c ""), s.
  - intros (pre1 & s1 & -> & (pre2 & s2 & -> & Hk)%IH2)%IH1.
    exists (pre1 +:+ pre2), s2. by rewrite PyFacts.append_assoc.
  - destruct (exec r1 s k) as [o|] eqn:H1; cbn [first_some].
    + intros [= <-]. by apply IH1.
    + apply IH2.
  - destruct (exec r1 s k) as [o|] eqn:H1; cbn [first_some].
    + intros [= <-]. by apply IH1.
    + intros Hk. by exists "", s.
  - generalize (String.length s) at 1. intros fuel. revert s.
    induction fuel as [|fuel IHf]; intros s.
    + intros Hk. by exists "", s.
    + match goal with
      | |- first_some ?x _ = _ → _ => destruct x as [o|] eqn:H1
      end; cbn [first_some].
      * intros [= <-]. apply IH1 in H1 as (pre1 & s1 & -> & H1).
        destruct (String.length s1 <? _)%nat; [|done].
        apply IHf in H1 as (pre2 & s2 & -> & Hk).
        exists (pre1 +:+ pre2), s2. by rewrite PyFacts.append_assoc.
      * intros Hk. by exists "", s.
  - revert s. induction n as [|n IHn]; intros s.
    + intros Hk. by exists "", s.
    + intros (pre1 & s1 & -> & (pre2 & s2 & -> & Hk)%IHn)%IH1.
      exists (pre1 +:+ pre2), s2. by rewrite PyFacts.append_assoc.
Qed.

(** Every match of [findall] is a piece of the text. *)
Lemma findall_go_substring fuel r s x :
  x ∈ findall_go fuel r s → substring_of x s.
Proof.
  revert s. induction fuel as [|fuel IH]; intros s; cbn [findall_go].
  - by intros ?%elem_of_nil.
  - destruct (exec r s Some) as [rest|] eqn:Hexec.
    + apply exec_suffix in Hexec as (pre & s' & Hs & [= ->]).
      intros [->|Hx]%elem_of_cons.
      * destruct (prefix_of_length_prefix
                    (String.length s - String.length rest) s) as [post Hpost].
        exists "", post. by rewrite PyFacts.append_nil_l.
      * destruct s as [|c s]; [by apply elem_of_nil in Hx|].
        apply IH in Hx.
        destruct (_ =? 0)%nat.
        -- by apply PyFacts.substring_of_cons.
        -- eapply PyFacts.substring_of_trans; [exact Hx|].
           exists pre, "". by rewrite PyFacts.append_nil_r.
    + destruct s as [|c s]; [by intros ?%elem_of_nil|].
      intros Hx%IH. by apply PyFacts.substring_of_cons.
Qed.

Lemma findall_substring r s x : x ∈ findall r s → substring_of x s.
Proof. apply findall_go_substring. Qed.

End MatchFacts.

Module ContactFacts.
Import NlpService.

Lemma compare_refl s : String.compare s s = Eq.
Proof.
  pose proof (String.compare_antisym s s) as H.
  destruct (String.compare s s); simpl in H; congruence.
Qed.

Lemma ltb_leb x y : String.ltb x y = true ↔ String.leb x y = true ∧ x ≠ y.
Proof.
  unfold String.ltb, String.leb. split.
  - intros H. split; [by destruct (String.compare x y)|].
    intros ->. by rewrite compare_refl in H.
  - intros [H Hne]. destruct (String.compare x y) eqn:Hc; try done.
    by apply String.compare_eq_iff in Hc.
Qed.

Lemma ltb_trans x y z : string_lt x y → string_lt y z → string_lt x z.
Proof.
  unfold string_lt. rewrite !ltb_leb. intros [Hxy Hne] [Hyz Hne']. split.
  - by eapply OrderFacts.string_leb_trans.
  - intros ->. apply Hne. by apply String.leb_antisym.
Qed.

Lemma ltb_trichotomy x y : String.ltb x y = false → x ≠ y → string_lt y x.
Proof.
  intros H Hne. unfold string_lt, String.ltb in *.
  rewrite (String.compare_antisym y x).
  destruct (String.compare x y) eqn:Hc; try done.
  by apply String.compare_eq_iff in Hc.
Qed.

Lemma elem_of_insert_new x y l : y ∈ insert_new x l ↔ y = x ∨ y ∈ l.
Proof.
  induction l as [|z l IH]; simpl; [set_solver|].
  case_decide; [set_solver|]. destruct (String.ltb x z); set_solver.
Qed.

Lemma elem_of_sorted_set y l : y ∈ sorted_set l ↔ y ∈ l.
Proof.
  unfold sorted_set. induction l as [|x l IH]; simpl; [done|].
  rewrite elem_of_insert_new, IH. set_solver.
Qed.

Lemma insert_new_sorted x l :
  StronglySorted string_lt l → StronglySorted string_lt (insert_new x l).
Proof.
  induction 1 as [|y l Hl IH Hy]; simpl.
  - repeat constructor.
  - case_decide as Hxy; [by constructor|].
    destruct (String.ltb x y) eqn:Hlt.
    + constructor; [by constructor|]. constructor; [done|].
      eapply Forall_impl; [exact Hy|]. intros z Hz. by eapply ltb_trans.
    + constructor; [done|]. rewrite Forall_forall. intros z Hz.
      apply elem_of_insert_new in Hz as [->|Hz].
      * by apply ltb_trichotomy.
      * rewrite Forall_forall in Hy. by apply Hy.
Qed.

Lemma sorted_set_sorted l : StronglySorted string_lt (sorted_set l).
Proof.
  unfold sorted_set. induction l as [|x l IH]; simpl; [constructor|].
  by apply insert_new_sorted.
Qed.

Lemma least_three_sorted_set l : least_three l (take 3 (sorted_set l)).
Proof.
  pose proof (sorted_set_sorted l) as Hs.
  rewrite <-(take_drop 3 (sorted_set l)) in Hs.
  apply StronglySorted_app in Hs as (Hlt & Hs & _).
  split_and!.
  - done.
  - rewrite length_take. lia.
  - intros x Hx. apply elem_of_sorted_set. by apply (subseteq_take 3).
  - intros x Hx. apply elem_of_sorted_set in Hx.
    rewrite <-(take_drop 3 (sorted_set l)) in Hx.
    apply elem_of_app in Hx as [Hx|Hx]; [by left|]. right. split.
    + rewrite length_take. apply Nat.min_l.
      destruct (decide (3 ≤ length (sorted_set l))%nat); [done|].
      rewrite drop_ge in Hx by lia. by apply elem_of_nil in Hx.
    + intros y Hy. by apply Hlt.
Qed.

Lemma take_sorted_set_cons x l : take 3 (sorted_set (x :: l)) ≠ [].
Proof.
  intros H.
  destruct (proj2 (proj2 (proj2 (least_three_sorted_set (x :: l)))) x)
    as [Hx|[Hlen _]]; [left| |];
    rewrite H in *; [by apply elem_of_nil in Hx|done].
Qed.

End ContactFacts.

(** C9. The contacts of the heuristic analysis come from the body alone.
    The addresses that [EMAIL_REGEX] finds in it, and the numbers that
    [PHONE_REGEX] finds, all of them pieces of the body, are each reduced
    to their distinct values in increasing order, the first three of them
    at most; a segment ["Emails: a, b, c"] or ["Phones: x, y, z"] is
    written for each kind that has a match, the two are joined by
    [" | "], and the text is empty when there is no match at all. *)
Theorem heuristic_contacts_format (email_obj : Email) :
  (∀ other, body other = body email_obj →
     contacts (NlpService.heuristic_result other)
     = contacts (NlpService.heuristic_result email_obj)) ∧
  ∃ es ps,
    least_three (Re.findall NlpService.EMAIL_REGEX (body email_obj)) es ∧
    least_three (Re.findall NlpService.PHONE_REGEX (body email_obj)) ps ∧
    (∀ x, x ∈ es ++ ps → substring_of x (body email_obj)) ∧
    contacts (NlpService.heuristic_result email_obj) = contacts_layout es ps.
Proof.
  split.
  - intros other Hbody. unfold NlpService.heuristic_result. simpl.
    by rewrite Hbody.
  - exists (take 3 (NlpService.sorted_set
                      (Re.findall NlpService.EMAIL_REGEX (body email_obj)))),
           (take 3 (NlpService.sorted_set
                      (Re.findall NlpService.PHONE_REGEX (body email_obj)))).
    split_and!; [apply ContactFacts.least_three_sorted_set..| |].
    { intros x [Hx|Hx]%elem_of_app;
        eapply MatchFacts.findall_substring,
          ContactFacts.least_three_sorted_set, Hx. }
    unfold NlpService.heuristic_result, NlpService._extract_contacts.
    cbn [contacts].
    destruct (Re.findall NlpService.EMAIL_REGEX (body email_obj)) as [|e es];
      destruct (Re.findall NlpService.PHONE_REGEX (body email_obj)) as [|p ps].
    + reflexivity.
    + pose proof (ContactFacts.take_sorted_set_cons p ps).
      destruct (take 3 (NlpService.sorted_set (p :: ps))); [done|reflexivity].
    + pose proof (ContactFacts.take_sorted_set_cons e es).
      destruct (take 3 (NlpService.sorted_set (e :: es))); [done|reflexivity].
    + pose proof (ContactFacts.take_sorted_set_cons e es).
      pose proof (ContactFacts.take_sorted_set_cons p ps).
      destruct (take 3 (NlpService.sorted_set (e :: es))); [done|].
      destruct (take 3 (NlpService.sorted_set (p :: ps))); [done|reflexivity].
Qed.

Lemma heuristic_contacts_format_witness :
  contacts (NlpService.heuristic_result
              {| message_id := "<m1@mail>"; sender := Some "Ann";
                 subject := "call 555-123-4567 or write to z@y.org";
                 body := "d@x.io c@x.io B@x.io a@x.io, c@x.io again; tel. (555) 123-4567 or 555 1234";
                 received_at := "" |})
  = contacts (NlpService.heuristic_result
              {| message_id := "<m2@mail>"; sender := Some "Bob";
                 subject := "";
                 body := "d@x.io c@x.io B@x.io a@x.io, c@x.io again; tel. (555) 123-4567 or 555 1234";
                 received_at := "" |})
  ∧ contacts (NlpService.heuristic_result
              {| message_id := "<m2@mail>"; sender := Some "Bob";
                 subject := "";
                 body := "d@x.io c@x.io B@x.io a@x.io, c@x.io again; tel. (555) 123-4567 or 555 1234";
                 received_at := "" |})
    = "Emails: B@x.io, a@x.io, c@x.io | Phones: (555) 123-4567, 555 1234".
Proof.
  split.
  - apply (proj1 (heuristic_contacts_format
      {| message_id := "<m2@mail>"; sender := Some "Bob";
         subject := "";
         body := "d@x.io c@x.io B@x.io a@x.io, c@x.io again; tel. (555) 123-4567 or 555 1234";
         received_at := "" |})).
    reflexivity.
  - vm_compute. reflexivity.
Defined.

(* ===================================================================== *)
(** * Normalization and the derived identifier *)
(* ===================================================================== *)

(** C10 (amended). Normalization keeps what the raw email holds: a sender,
    a subject and a body that are present, and an identifier and a
    timestamp that are present and not empty, are taken as they are.  A
    missing or null subject or body becomes the empty string; a missing,
    null or empty timestamp becomes the current time; a missing, null or
    empty identifier is derived from sender, subject and body; a missing
    sender becomes the empty string and a null one stays null.  The record
    built from the normalized email holds its five fields and the status
    ["pending"]. *)
Theorem normalize_defaults (env : Env) (i : nat) (e : App.RawEmail) :
  (∀ m, App.raw_message_id e = App.Str m → m ≠ "" →
        message_id (App.normalize env i e) = m) ∧
  (falsy (App.raw_message_id e) →
   message_id (App.normalize env i e) = App.derived_message_id env e) ∧
  (∀ s, App.raw_sender e = App.Str s → sender (App.normalize env i e) = Some s) ∧
  (App.raw_sender e = App.Missing → sender (App.normalize env i e) = Some "") ∧
  (App.raw_sender e = App.Null → sender (App.normalize env i e) = None) ∧
  (∀ s, App.raw_subject e = App.Str s → subject (App.normalize env i e) = s) ∧
  (App.raw_subject e = App.Missing ∨ App.raw_subject e = App.Null →
   subject (App.normalize env i e) = "") ∧
  (∀ s, App.raw_body e = App.Str s → body (App.normalize env i e) = s) ∧
  (App.raw_body e = App.Missing ∨ App.raw_body e = App.Null →
   body (App.normalize env i e) = "") ∧
  (∀ t, App.raw_received_at e = App.Str t → t ≠ "" →
        received_at (App.normalize env i e) = t) ∧
  (falsy (App.raw_received_at e) →
   received_at (App.normalize env i e) = utcnow_isoformat env i) ∧
  (∀ r, App.process env i e = Some r →
        Db.status r = "pending" ∧
        Db.message_id r = message_id (App.normalize env i e) ∧
        Db.sender r = sender (App.normalize env i e) ∧
        Db.subject r = subject (App.normalize env i e) ∧
        Db.body r = body (App.normalize env i e) ∧
        Db.received_at r = received_at (App.normalize env i e)).
Proof.
  assert (∀ s y, s ≠ "" → or_else (Some s) y = s) as Hkeep.
  { intros s y Hs. unfold or_else, Py.truthy.
    destruct (String.eqb_spec s ""); done. }
  assert (∀ s, or_else (Some s) "" = s) as Hkeep'.
  { intros s. unfold or_else, Py.truthy. by destruct (String.eqb_spec s ""). }
  unfold App.normalize, falsy. simpl. split_and!.
  - intros m -> Hm. by apply Hkeep.
  - by intros [->|[->| ->]].
  - by intros s ->.
  - by intros ->.
  - by intros ->.
  - intros s ->. apply Hkeep'.
  - by intros [->| ->].
  - intros s ->. apply Hkeep'.
  - by intros [->| ->].
  - intros t -> Ht. by apply Hkeep.
  - by intros [->|[->| ->]].
  - intros r Hr. unfold App.process in Hr.
    destruct (ResponseService.generate_response _ _ _); simplify_eq/=. done.
Qed.

Lemma normalize_defaults_witness :
  message_id (App.normalize morning 0 dated) = "<m1@mail>".
Proof.
  apply (proj1 (normalize_defaults morning 0 dated) "<m1@mail>").
  - reflexivity.
  - discriminate.
Defined.

(** C10, as stated, fails: an identifier that is present and empty is
    replaced by the derived one (and a timestamp that is present and empty
    by the current time). *)
Lemma empty_message_id_is_replaced :
  ¬ (∀ env i e, keeps_present_fields env i e)
  ∧ message_id (App.normalize morning 0 unnamed)
    = "Ann <ann@example.com>_Help with login_-1712148659304476210"
  ∧ received_at (App.normalize morning 0 unnamed) = "2024-01-01T09:00:00.000000".
Proof.
  split_and!; [|vm_compute; reflexivity..].
  intros H.
  destruct (H morning 0%nat unnamed "" "Ann <ann@example.com>"
              "Help with login" "hello") as [Hm _]; try reflexivity.
  vm_compute in Hm. discriminate.
Qed.

Module IdFacts.
Import App.

Lemma derived_message_id_eq env1 env2 e :
  derived_message_id env1 e = derived_message_id env2 e
  ↔ hash env1 (get_default (raw_body e)) = hash env2 (get_default (raw_body e)).
Proof.
  unfold derived_message_id. split; [|by intros ->].
  intros H. do 4 apply (inj (String.app _)) in H.
  by apply (inj pretty) in H.
Qed.

(** When the raw email holds no identifier, two runs give the email the same
    identifier exactly when their processes hash the body alike. *)
Lemma message_id_stable_iff env1 env2 i j e :
  falsy (raw_message_id e) →
  message_id (normalize env1 i e) = message_id (normalize env2 j e)
  ↔ hash env1 (get_default (raw_body e)) = hash env2 (get_default (raw_body e)).
Proof.
  intros Hf. rewrite <-derived_message_id_eq.
  unfold normalize; simpl. by destruct Hf as [->|[->| ->]].
Qed.

End IdFacts.

(** C4: the code does not do what the claim says.  The identifier is
    derived with the built-in [hash], which CPython salts anew in every
    process: the same email without an identifier, normalized in two
    executions (here with the salts of [PYTHONHASHSEED=1] and
    [PYTHONHASHSEED=2]), gets two identifiers. *)
Theorem derived_message_id_changes_with_salt :
  message_id (App.normalize morning 0
                {| App.raw_message_id := App.Missing;
                   App.raw_sender := App.Str "ann@example.com";
                   App.raw_subject := App.Str "Help";
                   App.raw_body := App.Str "hello";
                   App.raw_received_at := App.Missing |})
  = "ann@example.com_Help_-1712148659304476210"
  ∧ message_id (App.normalize (set_hash hash_seed_2 morning) 0
                  {| App.raw_message_id := App.Missing;
                     App.raw_sender := App.Str "ann@example.com";
                     App.raw_subject := App.Str "Help";
                     App.raw_body := App.Str "hello";
                     App.raw_received_at := App.Missing |})
    = "ann@example.com_Help_-2276782357261739453"
  ∧ ∃ d1 d2,
      App.ingest_latest morning [anonymous] (Db.init_db None) = Some d1 ∧
      App.ingest_latest (set_hash hash_seed_2 morning) [anonymous] d1 = Some d2 ∧
      Db.mid <$> Db.emails d1 = ["ann@example.com_Help_-1712148659304476210"] ∧
      Db.mid <$> Db.emails d2 = ["ann@example.com_Help_-1712148659304476210";
                                 "ann@example.com_Help_-2276782357261739453"].
Proof.
  split_and!; [vm_compute; reflexivity..|].
  do 2 eexists. split_and!; vm_compute; reflexivity.
Qed.

(* ===================================================================== *)
(** * The oracle *)
(* ===================================================================== *)

Module OracleFacts.
Import NlpService ResponseService.

Lemma analyze_email_no_reply env email_obj :
  no_reply (nlp_call_gemini env
              (analysis_prompt (subject email_obj) (body email_obj))) →
  analyze_email env email_obj = heuristic_result email_obj.
Proof.
  unfold analyze_email. intros [-> | ->]; by destruct (GEMINI_API_KEY env).
Qed.

Lemma analyze_email_unparseable env email_obj :
  unparseable env (nlp_call_gemini env
                     (analysis_prompt (subject email_obj) (body email_obj))) →
  analyze_email env email_obj = heuristic_result email_obj.
Proof.
  unfold analyze_email. intros (raw & -> & ->).
  destruct (GEMINI_API_KEY env); [|done]. by destruct (Py.truthy raw).
Qed.

Lemma heuristic_result_valid email_obj :
  sentiment (heuristic_result email_obj) ∈ ["Positive"; "Negative"; "Neutral"] ∧
  priority (heuristic_result email_obj) ∈ ["Urgent"; "Not urgent"].
Proof.
  unfold heuristic_result. cbn [sentiment priority].
  unfold _sentiment, _priority. split.
  - destruct (any_in POS_WORDS _), (any_in NEG_WORDS _); cbn [andb negb];
      set_solver.
  - destruct (any_in URGENT_WORDS _); set_solver.
Qed.

Lemma generate_response_no_reply env email_obj analysis :
  no_reply (response_call_gemini env (reply_prompt env email_obj)) →
  generate_response env email_obj analysis
  = fallback_draft (sender email_obj) analysis.
Proof.
  unfold generate_response. intros [-> | ->]; by destruct (GEMINI_API_KEY env).
Qed.

Lemma fallback_draft_Some s analysis :
  ∃ d, fallback_draft (Some s) analysis = Some d ∧ d ≠ "".
Proof.
  unfold fallback_draft. eexists. split; [reflexivity|].
  by rewrite !PyFacts.append_cons.
Qed.

Lemma generate_response_is_Some env email_obj analysis s :
  sender email_obj = Some s →
  is_Some (generate_response env email_obj analysis).
Proof.
  intros Hs. unfold generate_response. rewrite Hs.
  destruct (fallback_draft_Some s analysis) as (d & -> & _).
  destruct (GEMINI_API_KEY env); [|by eexists].
  destruct (response_call_gemini env _) as [out|]; [|by eexists].
  destruct (Py.truthy out); by eexists.
Qed.

End OracleFacts.

(** C5. An oracle that answers with blanks is taken at its word: the
    answer passes the test [if out:] of [generate_response], which returns
    it trimmed, so that the draft is the empty text, where the template
    draft of the same email is not empty.  [analyze_email] does degrade
    to the heuristic analysis on this answer. *)
Theorem blank_reply_gives_empty_draft :
  response_call_gemini blank (ResponseService.reply_prompt blank ann_email)
  = Some "   "
  ∧ ResponseService.generate_response blank ann_email
      (NlpService.analyze_email blank ann_email)
    = Some ""
  ∧ NlpService.analyze_email blank ann_email = NlpService.heuristic_result ann_email
  ∧ ∃ d, ResponseService.fallback_draft (sender ann_email)
           (NlpService.heuristic_result ann_email) = Some d ∧ d ≠ "".
Proof.
  split_and!; [vm_compute; reflexivity..|].
  apply OracleFacts.fallback_draft_Some.
Qed.

(* ===================================================================== *)
(** * Further properties of the store *)
(* ===================================================================== *)

Module DbMore.
Import Db.

Lemma lookup_upsert_one d e i r :
  emails d !! i = Some r →
  emails (upsert_one d e) !! i = Some (touch e r).
Proof.
  intros Hi. rewrite DbFacts.emails_upsert_one. case_decide as Hin.
  - by rewrite list_lookup_fmap, Hi.
  - rewrite lookup_app_l by (by eapply lookup_lt_Some).
    rewrite Hi. f_equal. symmetry. apply DbFacts.touch_other.
    intros Heq. apply Hin. rewrite <-Heq.
    apply list_elem_of_fmap. exists r. split; [done|].
    by eapply list_elem_of_lookup_2.
Qed.

Lemma lookup_fold_upsert l d i r :
  emails d !! i = Some r →
  ∃ r', emails (foldl upsert_one d l) !! i = Some r' ∧
        id r' = id r ∧ mid r' = mid r ∧
        (mid r ∉ message_id <$> l → r' = r).
Proof.
  revert d r. induction l as [|e l IH]; intros d r Hi; simpl.
  - exists r. done.
  - destruct (IH _ _ (lookup_upsert_one d e i r Hi)) as (r' & Hr' & Hid & Hmid & Hsame).
    exists r'. rewrite DbFacts.id_touch in Hid. rewrite DbFacts.mid_touch in Hmid.
    split_and!; [done..|].
    intros Hnot. rewrite not_elem_of_cons in Hnot. destruct Hnot as [Hne Hnot].
    rewrite Hsame by (by rewrite DbFacts.mid_touch).
    by apply DbFacts.touch_other.
Qed.

Lemma elem_of_mids_fold_upsert l d m :
  m ∈ mid <$> emails (foldl upsert_one d l)
  ↔ m ∈ mid <$> emails d ∨ m ∈ message_id <$> l.
Proof.
  revert d. induction l as [|e l IH]; intros d; simpl.
  - set_solver.
  - rewrite IH, DbFacts.mids_upsert_one. case_decide; set_solver.
Qed.

Lemma well_numbered_upsert_one d e :
  well_numbered d → well_numbered (upsert_one d e).
Proof.
  intros (Hseq & Hs & Hb). unfold well_numbered.
  rewrite DbFacts.emails_upsert_one.
  assert (sqlite_sequence (upsert_one d e) = sqlite_sequence d + 1) as ->.
  { unfold upsert_one. by destruct (existsb _ _). }
  split; [lia|]. case_decide.
  - split.
    + rewrite <-list_fmap_compose.
      erewrite list_fmap_ext; [exact Hs|].
      intros i r _. simpl. apply DbFacts.id_touch.
    + rewrite Forall_fmap. eapply Forall_impl; [exact Hb|].
      intros r Hr. simpl in *. rewrite DbFacts.id_touch. lia.
  - split.
    + rewrite fmap_app. apply StronglySorted_app. split_and!.
      * intros x y Hx Hy. simpl in Hy. apply list_elem_of_singleton in Hy as ->.
        apply list_elem_of_fmap in Hx as (r & -> & Hr).
        rewrite Forall_forall in Hb. specialize (Hb r Hr). lia.
      * done.
      * repeat constructor.
    + apply Forall_app. split.
      * eapply Forall_impl; [exact Hb|]. intros r Hr. simpl in *. lia.
      * repeat constructor; simpl; lia.
Qed.

Lemma well_numbered_fold_upsert l d :
  well_numbered d → well_numbered (foldl upsert_one d l).
Proof.
  revert d. induction l as [|e l IH]; intros d Hd; simpl; [done|].
  by apply IH, well_numbered_upsert_one.
Qed.

Lemma sorted_lt_NoDup (l : list Z) : StronglySorted Z.lt l → NoDup l.
Proof.
  induction 1 as [|x l Hl IH Hx]; constructor; [|done].
  intros Hin. rewrite Forall_forall in Hx. specialize (Hx x Hin). lia.
Qed.

Lemma insert_ext {A} (leb1 leb2 : A → A → bool) x l :
  (∀ y, y ∈ l → leb1 x y = leb2 x y) →
  StableSort.insert leb1 x l = StableSort.insert leb2 x l.
Proof.
  induction l as [|y l IH]; intros Hext; simpl; [done|].
  rewrite <-(Hext y) by left. destruct (leb1 x y); [done|].
  f_equal. apply IH. intros z Hz. apply Hext. by right.
Qed.

Lemma sort_ext {A} (leb1 leb2 : A → A → bool) l :
  (∀ x y, x ∈ l → y ∈ l → leb1 x y = leb2 x y) →
  StableSort.sort leb1 l = StableSort.sort leb2 l.
Proof.
  induction l as [|x l IH]; intros Hext; simpl; [done|].
  rewrite IH by (intros; apply Hext; by right).
  apply insert_ext. intros y Hy%StableSortFacts.sort_elem_of.
  apply Hext; [left|by right].
Qed.

Lemma take_prefix {A} (l : list A) n m : (n ≤ m)%nat → take n l `prefix_of` take m l.
Proof.
  intros Hnm. exists (drop n (take m l)).
  rewrite <-(take_drop n (take m l)) at 1.
  by rewrite take_take, Nat.min_l.
Qed.

Lemma sql_limit_prefix {A} (l : list A) limit limit' :
  0 ≤ limit → limit ≤ limit' ∨ limit' < 0 →
  sql_limit limit l `prefix_of` sql_limit limit' l.
Proof.
  intros Hl Hl'. unfold sql_limit.
  destruct (Z.ltb_spec limit 0); [lia|].
  destruct (Z.ltb_spec limit' 0).
  - apply prefix_take.
  - apply take_prefix. lia.
Qed.

Lemma sql_limit_all {A} (l : list A) limit :
  limit < 0 ∨ Z.of_nat (length l) ≤ limit → sql_limit limit l = l.
Proof.
  intros Hl. unfold sql_limit. destruct (Z.ltb_spec limit 0); [done|].
  apply take_ge. lia.
Qed.

End DbMore.

(** X1. [upsert_emails] never deletes or moves a row: every row of the
    table stays at its place with its [id] and its message identifier, and
    a row whose identifier is not in the batch is left as it was. *)
Theorem upsert_emails_keeps_rows (l : list Db.record) (d : Db.db) (i : nat)
    (r : Db.row) :
  Db.emails d !! i = Some r →
  ∃ r', Db.emails (Db.upsert_emails l d) !! i = Some r' ∧
        Db.id r' = Db.id r ∧
        Db.message_id (Db.data r') = Db.message_id (Db.data r) ∧
        (Db.message_id (Db.data r) ∉ Db.message_id <$> l → r' = r).
Proof.
  rewrite DbFacts.upsert_emails_foldl. apply DbMore.lookup_fold_upsert.
Qed.

Lemma upsert_emails_keeps_rows_witness :
  ∃ r', Db.emails
          (Db.upsert_emails
             [sample_record "<m2@mail>" "not a date" "Urgent"] same_second)
        !! 0%nat = Some r' ∧
        Db.id r' = 1 ∧
        Db.message_id (Db.data r') = "<m1@mail>" ∧
        (Db.message_id
           (sample_record "<m1@mail>" "2024-01-01T10:00:00.100000+00:00" "Not urgent")
         ∉ Db.message_id <$> [sample_record "<m2@mail>" "not a date" "Urgent"] →
         r' = {| Db.id := 1;
                 Db.data := sample_record "<m1@mail>"
                              "2024-01-01T10:00:00.100000+00:00" "Not urgent" |}).
Proof.
  apply (upsert_emails_keeps_rows
           [sample_record "<m2@mail>" "not a date" "Urgent"] same_second 0%nat
           {| Db.id := 1;
              Db.data := sample_record "<m1@mail>"
                           "2024-01-01T10:00:00.100000+00:00" "Not urgent" |}).
  reflexivity.
Defined.

(** X2. After any sequence of [upsert_emails] calls on a new database, the
    table holds as many rows as the batches hold distinct message
    identifiers. *)
Theorem row_count_is_distinct_message_ids (batches : list (list Db.record)) :
  length (Db.emails (Db.run batches (Db.init_db None)))
  = size (list_to_set (Db.message_id <$> concat batches) : gset string).
Proof.
  rewrite DbFacts.run_concat.
  rewrite <-(length_fmap Db.mid).
  rewrite <-(size_list_to_set (C := gset string))
    by (apply DbFacts.NoDup_fold_upsert; simpl; constructor).
  f_equal. apply set_eq. intros m.
  rewrite !elem_of_list_to_set, DbMore.elem_of_mids_fold_upsert. simpl.
  set_solver.
Qed.

(** X3. After any sequence of [upsert_emails] calls on a new database, the
    [id]s of the rows are positive, pairwise distinct, increasing along the
    table and not above the counter of [AUTOINCREMENT]: an [id] is never
    given twice. *)
Theorem row_ids_increase (batches : list (list Db.record)) :
  well_numbered (Db.run batches (Db.init_db None)) ∧
  NoDup (Db.id <$> Db.emails (Db.run batches (Db.init_db None))).
Proof.
  assert (well_numbered (Db.run batches (Db.init_db None))) as Hw.
  { rewrite DbFacts.run_concat. apply DbMore.well_numbered_fold_upsert.
    unfold well_numbered. simpl. split_and!; [lia|constructor|constructor]. }
  split; [done|]. apply DbMore.sorted_lt_NoDup. apply Hw.
Qed.

(** X4. For two limits that SQLite takes, a fetch with the smaller one
    returns the beginning of what a fetch with the larger one, or without
    limit (a negative one), returns. *)
Theorem fetch_emails_prefix (datetime : string → option string) (d : Db.db)
    (order_by_priority : bool) (limit limit' : Z) :
  sqlite_integer limit → sqlite_integer limit' →
  0 ≤ limit → limit ≤ limit' ∨ limit' < 0 →
  Db.fetch_emails datetime d order_by_priority limit
    `prefix_of` Db.fetch_emails datetime d order_by_priority limit'.
Proof.
  intros _ _ Hl Hl'. unfold Db.fetch_emails.
  destruct order_by_priority; by apply DbMore.sql_limit_prefix.
Qed.

Lemma fetch_emails_prefix_witness :
  Db.fetch_emails sample_datetime same_second true 1
    `prefix_of` Db.fetch_emails sample_datetime same_second true (-1).
Proof.
  apply (fetch_emails_prefix sample_datetime same_second true 1 (-1));
    unfold sqlite_integer; lia.
Defined.

(** X5. When all the rows of the store are Urgent, or none is, the two
    orders of [fetch_emails] return the same sequence. *)
Theorem fetch_emails_one_tier (datetime : string → option string) (d : Db.db)
    (limit : Z) :
  Forall (λ r, Db.priority (Db.data r) = "Urgent") (Db.emails d)
  ∨ Forall (λ r, Db.priority (Db.data r) ≠ "Urgent") (Db.emails d) →
  Db.fetch_emails datetime d true limit = Db.fetch_emails datetime d false limit.
Proof.
  intros Htier. unfold Db.fetch_emails. f_equal.
  apply DbMore.sort_ext. intros x y Hx Hy.
  unfold Db.by_priority_received.
  assert (Db.priority_rank x = Db.priority_rank y) as ->.
  { unfold Db.priority_rank.
    destruct Htier as [H|H]; rewrite Forall_forall in H;
      pose proof (H x Hx); pose proof (H y Hy); by repeat case_decide. }
  rewrite Z.ltb_irrefl, Z.eqb_refl. done.
Qed.

Lemma fetch_emails_one_tier_witness :
  Db.fetch_emails sample_datetime same_second true 200
  = Db.fetch_emails sample_datetime same_second false 200.
Proof.
  apply (fetch_emails_one_tier sample_datetime same_second 200).
  right. repeat constructor; discriminate.
Defined.

(** X6. What is upserted can be fetched: after [upsert_emails], a fetch
    without limit (a negative one), or with a limit that the number of
    rows does not exceed, the limit being one that SQLite takes, returns
    for every record of the batch that no later record of the batch
    replaces a row holding exactly that record. *)
Theorem upsert_then_fetch (datetime : string → option string) (d : Db.db)
    (before after : list Db.record) (e : Db.record)
    (order_by_priority : bool) (limit : Z) :
  sqlite_integer limit →
  (∀ e', e' ∈ after → Db.message_id e' ≠ Db.message_id e) →
  limit < 0
  ∨ Z.of_nat (length (Db.emails (Db.upsert_emails (before ++ e :: after) d))) ≤ limit →
  ∃ i, {| Db.id := i; Db.data := e |}
       ∈ Db.fetch_emails datetime (Db.upsert_emails (before ++ e :: after) d)
           order_by_priority limit.
Proof.
  intros _ Hafter Hlimit. rewrite DbFacts.upsert_emails_foldl in *.
  assert (Db.message_id e
          ∈ Db.mid <$> Db.emails (foldl Db.upsert_one d (before ++ e :: after)))
    as (r & Hm & Hr)%list_elem_of_fmap.
  { apply DbFacts.batch_present_fold_upsert. set_solver. }
  exists (Db.id r).
  assert ({| Db.id := Db.id r; Db.data := e |} = r) as ->.
  { rewrite <-(DbFacts.row_of_fold_upsert d before e after r); [by destruct r|done..]. }
  unfold Db.fetch_emails.
  destruct order_by_priority;
    (rewrite DbMore.sql_limit_all
       by (by rewrite StableSortFacts.sort_length));
    by apply StableSortFacts.sort_elem_of.
Qed.

Lemma upsert_then_fetch_witness :
  ∃ i, {| Db.id := i; Db.data := sample_record "<m2@mail>" "not a date" "Urgent" |}
       ∈ Db.fetch_emails sample_datetime
           (Db.upsert_emails
              ([] ++ sample_record "<m2@mail>" "not a date" "Urgent" :: [])
              same_second)
           true (-1).
Proof.
  apply (upsert_then_fetch sample_datetime same_second [] []
           (sample_record "<m2@mail>" "not a date" "Urgent") true (-1)).
  - unfold sqlite_integer. lia.
  - intros e' He'. inversion He'.
  - left. lia.
Defined.

(** X29. For every store and every limit that SQLite takes,
    [fetch_emails] returns rows of the store, as many as the store holds
    up to [limit] when [limit] is not negative, all of them when it is
    negative.  The rows are ordered by what [datetime()] reads in their
    timestamps, whole seconds, compared as texts, a timestamp it cannot
    read counting as older than any other: with [order_by_priority] no
    Not urgent row precedes an Urgent one and, within a tier, the
    readings never increase; without it the readings never increase along
    the whole sequence. *)
Theorem fetch_emails_sorted_by_second (datetime : string → option string)
    (d : Db.db) (order_by_priority : bool) (limit : Z) :
  sqlite_integer limit →
  (∀ r, r ∈ Db.fetch_emails datetime d order_by_priority limit → r ∈ Db.emails d) ∧
  (0 ≤ limit →
   length (Db.fetch_emails datetime d order_by_priority limit)
   = Nat.min (Z.to_nat limit) (length (Db.emails d))) ∧
  (limit < 0 →
   Db.fetch_emails datetime d order_by_priority limit ≡ₚ Db.emails d) ∧
  ∀ i j a b, (i < j)%nat →
    Db.fetch_emails datetime d order_by_priority limit !! i = Some a →
    Db.fetch_emails datetime d order_by_priority limit !! j = Some b →
    if order_by_priority then
      (Db.priority (Db.data b) = "Urgent" → Db.priority (Db.data a) = "Urgent") ∧
      ((Db.priority (Db.data a) = "Urgent" ↔ Db.priority (Db.data b) = "Urgent") →
       Db.desc_leb (datetime (Db.received_at (Db.data a)))
                   (datetime (Db.received_at (Db.data b))) = true)
    else
      Db.desc_leb (datetime (Db.received_at (Db.data a)))
                  (datetime (Db.received_at (Db.data b))) = true.
Proof.
  intros _.
  assert (∀ leb, (∀ r, r ∈ Db.sql_limit limit (StableSort.sort leb (Db.emails d))
                       → r ∈ Db.emails d)
    ∧ (0 ≤ limit → length (Db.sql_limit limit (StableSort.sort leb (Db.emails d)))
                   = Nat.min (Z.to_nat limit) (length (Db.emails d)))
    ∧ (limit < 0 → Db.sql_limit limit (StableSort.sort leb (Db.emails d))
                   ≡ₚ Db.emails d)) as Hlimit.
  { intros leb. unfold Db.sql_limit. split_and!.
    - intros r Hr. apply (StableSortFacts.sort_elem_of leb).
      destruct (limit <? 0); [done|].
      by apply (subseteq_take (Z.to_nat limit)).
    - intros Hl. destruct (Z.ltb_spec limit 0); [lia|].
      by rewrite length_take, StableSortFacts.sort_length.
    - intros Hl. destruct (Z.ltb_spec limit 0); [|lia].
      apply StableSortFacts.sort_perm. }
  unfold Db.fetch_emails. destruct order_by_priority.
  - destruct (Hlimit (Db.by_priority_received datetime)) as (H1 & H2 & H3).
    split_and!; [done..|].
    intros i j a b Hij Ha%OrderFacts.sql_limit_lookup Hb%OrderFacts.sql_limit_lookup.
    assert (Db.by_priority_received datetime a b = true) as Hab.
    { eapply (StableSortFacts.sorted_lookup
                (λ a b, Db.by_priority_received datetime a b = true) _ i j);
        [|done..].
      apply StableSortFacts.sort_sorted.
      - apply OrderFacts.by_priority_received_total.
      - apply OrderFacts.by_priority_received_trans. }
    unfold Db.by_priority_received in Hab. apply orb_true_iff in Hab.
    rewrite Z.ltb_lt, andb_true_iff, Z.eqb_eq in Hab. split.
    + apply OrderFacts.priority_rank_le. lia.
    + intros Htier%OrderFacts.priority_rank_eq.
      destruct Hab as [?|[_ ?]]; [lia|done].
  - destruct (Hlimit (Db.by_received datetime)) as (H1 & H2 & H3).
    split_and!; [done..|].
    intros i j a b Hij Ha%OrderFacts.sql_limit_lookup Hb%OrderFacts.sql_limit_lookup.
    eapply (StableSortFacts.sorted_lookup
              (λ a b, Db.by_received datetime a b = true) _ i j); [|done..].
    apply StableSortFacts.sort_sorted.
    + apply OrderFacts.by_received_total.
    + apply OrderFacts.by_received_trans.
Qed.

Lemma fetch_emails_sorted_by_second_witness :
  length (Db.fetch_emails sample_datetime evening_store true 1)
  = Nat.min (Z.to_nat 1) (length (Db.emails evening_store))
  ∧ Db.desc_leb (sample_datetime "2024-01-01T18:00:00.000000")
                (sample_datetime "2024-01-01T09:00:00.000000") = true.
Proof.
  assert (sqlite_integer 1 ∧ sqlite_integer 200) as [H1 H200]
    by (unfold sqlite_integer; lia).
  split.
  - apply (proj1 (proj2
      (fetch_emails_sorted_by_second sample_datetime evening_store true 1 H1))).
    lia.
  - apply (proj2 (proj2 (proj2
      (fetch_emails_sorted_by_second sample_datetime evening_store true 200 H200)))
      0%nat 1%nat
      {| Db.id := 2;
         Db.data := sample_record "<m2@mail>" "2024-01-01T18:00:00.000000" "Not urgent" |}
      {| Db.id := 1;
         Db.data := sample_record "<m1@mail>" "2024-01-01T09:00:00.000000" "Not urgent" |});
      [lia|reflexivity|reflexivity|done].
Defined.


(* ===================================================================== *)
(** * Further properties of ingestion *)
(* ===================================================================== *)

Module IngestFacts.
Import App.

Lemma append_nonempty_r s t : t ≠ "" → s +:+ t ≠ "".
Proof. destruct s; [done|]. by rewrite PyFacts.append_cons. Qed.

Lemma message_id_nonempty env i e : message_id (normalize env i e) ≠ "".
Proof.
  unfold normalize. cbn [message_id].
  assert (derived_message_id env e ≠ "") as Hd.
  { unfold derived_message_id. apply append_nonempty_r. done. }
  unfold or_else, Py.truthy. destruct (get (raw_message_id e)) as [s|]; [|done].
  by destruct (String.eqb_spec s "").
Qed.

Lemma process_fields env i e r :
  process env i e = Some r →
  Db.message_id r = message_id (normalize env i e) ∧ Db.status r = "pending".
Proof.
  unfold process. intros Hr.
  destruct (ResponseService.generate_response _ _ _); by simplify_eq/=.
Qed.

Lemma process_all_elem_of env i l rs r :
  process_all env i l = Some rs → r ∈ rs →
  ∃ k e, l !! k = Some e ∧ process env (i + k) e = Some r.
Proof.
  revert i rs. induction l as [|e l IH]; intros i rs Hrs Hr; simpl in Hrs.
  - simplify_eq. by apply elem_of_nil in Hr.
  - destruct (process env i e) as [r0|] eqn:Hp; [|done]. simpl in Hrs.
    destruct (process_all env (S i) l) as [rs0|] eqn:Hps; [|done].
    simplify_eq/=. apply elem_of_cons in Hr as [->|Hr].
    + exists 0%nat, e. by rewrite Nat.add_0_r.
    + destruct (IH _ _ Hps Hr) as (k & e' & Hk & He').
      exists (S k), e'. split; [done|]. by rewrite Nat.add_succ_r.
Qed.

Lemma process_all_lookup env i l rs k e :
  process_all env i l = Some rs → l !! k = Some e →
  ∃ r, rs !! k = Some r ∧ process env (i + k) e = Some r.
Proof.
  revert i rs k. induction l as [|e0 l IH]; intros i rs k Hrs Hk; [done|].
  simpl in Hrs.
  destruct (process env i e0) as [r0|] eqn:Hp; [|done]. simpl in Hrs.
  destruct (process_all env (S i) l) as [rs0|] eqn:Hps; [|done].
  simplify_eq/=. destruct k as [|k]; simplify_eq/=.
  - exists r0. by rewrite Nat.add_0_r.
  - destruct (IH _ _ _ Hps Hk) as (r & Hr & Hpr).
    exists r. split; [done|]. by rewrite Nat.add_succ_r.
Qed.

Lemma process_all_None env i l e :
  e ∈ l → (∀ j, process env j e = None) → process_all env i l = None.
Proof.
  intros He Hnone. revert i. induction l as [|e0 l IH]; intros i.
  - by apply elem_of_nil in He.
  - simpl. apply elem_of_cons in He as [<-|He].
    + by rewrite Hnone.
    + rewrite IH by done. by destruct (process env i e0).
Qed.

Lemma process_all_Some env i l :
  (∀ e j, e ∈ l → is_Some (process env j e)) → is_Some (process_all env i l).
Proof.
  revert i. induction l as [|e l IH]; intros i Hl; simpl; [by eexists|].
  destruct (Hl e i) as [r ->]; [left|]. simpl.
  destruct (IH (S i)) as [rs ->]; [intros; apply Hl; by right|].
  by eexists.
Qed.

Lemma elem_of_fold_upsert l d r :
  r ∈ Db.emails (foldl Db.upsert_one d l) → r ∈ Db.emails d ∨ Db.data r ∈ l.
Proof.
  revert d. induction l as [|e l IH]; intros d Hr; simpl in *; [by left|].
  destruct (IH _ Hr) as [Hr'|Hr']; [|right; by right].
  rewrite DbFacts.emails_upsert_one in Hr'. case_decide.
  - apply list_elem_of_fmap in Hr' as (r0 & -> & Hr0).
    unfold Db.touch. destruct (Db.has_message_id _ _); [right; left|by left].
  - apply elem_of_app in Hr' as [?|Hr']; [by left|].
    apply list_elem_of_singleton in Hr' as ->. right. left.
Qed.

Lemma last_occurrence (l : list Db.record) m :
  m ∈ Db.message_id <$> l →
  ∃ before e after, l = before ++ e :: after ∧ Db.message_id e = m ∧
    ∀ e', e' ∈ after → Db.message_id e' ≠ Db.message_id e.
Proof.
  induction l as [|x l IH]; intros Hm.
  - by apply elem_of_nil in Hm.
  - destruct (decide (m ∈ Db.message_id <$> l)) as [Hin|Hnot].
    + destruct (IH Hin) as (before & e & after & -> & He & Hafter).
      by exists (x :: before), e, after.
    + rewrite fmap_cons in Hm. apply elem_of_cons in Hm as [->|?]; [|done].
      exists [], x, l. split_and!; [done..|].
      intros e' He' Heq. apply Hnot. rewrite <-Heq.
      apply list_elem_of_fmap. eauto.
Qed.

(** The rows of the store after [ingest_latest], from the sorted batch. *)
Lemma ingest_latest_inv env raw_emails d d' :
  ingest_latest env raw_emails d = Some d' →
  ∃ processed,
    process_all env 0 raw_emails = Some processed ∧
    Db.emails d'
    = Db.emails (foldl Db.upsert_one d
                   (StableSort.sort (by_sort_key env) processed)).
Proof.
  unfold ingest_latest. intros Hd.
  destruct (process_all env 0 raw_emails) as [processed|]; [|done].
  simpl in Hd. simplify_eq. exists processed. split; [done|].
  by destruct (StableSort.sort (by_sort_key env) processed).
Qed.

End IngestFacts.

(** X7. The identifier of a normalized email is never the empty string,
    and neither is the identifier of the record built from it. *)
Theorem normalized_message_id_nonempty (env : Env) (i : nat) (e : App.RawEmail) :
  message_id (App.normalize env i e) ≠ "" ∧
  ∀ r, App.process env i e = Some r → Db.message_id r ≠ "".
Proof.
  split; [apply IngestFacts.message_id_nonempty|].
  intros r [-> _]%IngestFacts.process_fields.
  apply IngestFacts.message_id_nonempty.
Qed.

Lemma normalized_message_id_nonempty_witness :
  Db.message_id
    (default (sample_record "" "" "") (App.process morning 0 unnamed)) ≠ "".
Proof.
  apply (proj2 (normalized_message_id_nonempty morning 0 unnamed)).
  vm_compute. reflexivity.
Defined.

(** X8. The derived identifier joins sender, subject and hash with
    underscores and cannot tell where the sender ends: two emails without
    identifier and with the same body, one from [s_t] about [u], the other
    from [s] about [t_u], get the same identifier. *)
Theorem derived_message_id_collision (env : Env) (i j : nat)
    (e1 e2 : App.RawEmail) (s t u : string) :
  falsy (App.raw_message_id e1) → falsy (App.raw_message_id e2) →
  App.raw_sender e1 = App.Str (s +:+ "_" +:+ t) → App.raw_subject e1 = App.Str u →
  App.raw_sender e2 = App.Str s → App.raw_subject e2 = App.Str (t +:+ "_" +:+ u) →
  App.raw_body e1 = App.raw_body e2 →
  message_id (App.normalize env i e1) = message_id (App.normalize env j e2).
Proof.
  intros H1 H2 Hs1 Hu1 Hs2 Hu2 Hb.
  unfold App.normalize. cbn [message_id].
  assert (∀ f x, falsy f → or_else (App.get f) x = x) as Hor.
  { intros f x [->|[->| ->]]; done. }
  rewrite !Hor by done. unfold App.derived_message_id.
  rewrite Hs1, Hu1, Hs2, Hu2, Hb. simpl.
  by rewrite <-!PyFacts.append_assoc.
Qed.

Lemma derived_message_id_collision_witness :
  message_id (App.normalize morning 0
                {| App.raw_message_id := App.Missing;
                   App.raw_sender := App.Str ("ann" +:+ "_" +:+ "lee");
                   App.raw_subject := App.Str "help";
                   App.raw_body := App.Str "hello";
                   App.raw_received_at := App.Missing |})
  = message_id (App.normalize morning 1
                  {| App.raw_message_id := App.Missing;
                     App.raw_sender := App.Str "ann";
                     App.raw_subject := App.Str ("lee" +:+ "_" +:+ "help");
                     App.raw_body := App.Str "hello";
                     App.raw_received_at := App.Null |}).
Proof.
  apply (derived_message_id_collision morning 0 1 _ _ "ann" "lee" "help");
    try reflexivity; by left.
Defined.

(** X9. An email whose sender is null makes [ingest_latest] raise when no
    oracle text replaces the template draft: the call fails as a whole and
    nothing of the batch is stored. *)
Theorem ingest_null_sender_raises (env : Env) (raw_emails : list App.RawEmail)
    (d : Db.db) (e : App.RawEmail) :
  e ∈ raw_emails → App.raw_sender e = App.Null →
  GEMINI_API_KEY env = false ∨ (∀ p, no_reply (response_call_gemini env p)) →
  App.ingest_latest env raw_emails d = None.
Proof.
  intros He Hs Horacle. unfold App.ingest_latest.
  rewrite (IngestFacts.process_all_None env 0 raw_emails e He); [done|].
  intros j. unfold App.process.
  assert (ResponseService.generate_response env (App.normalize env j e)
            (NlpService.analyze_email env (App.normalize env j e)) = None) as ->;
    [|done].
  unfold ResponseService.generate_response.
  assert (sender (App.normalize env j e) = None) as ->
    by (unfold App.normalize; simpl; by rewrite Hs).
  destruct Horacle as [-> | Hno]; [done|].
  destruct (GEMINI_API_KEY env); [|done].
  by destruct (Hno (ResponseService.reply_prompt env (App.normalize env j e)))
    as [-> | ->].
Qed.

Lemma ingest_null_sender_raises_witness :
  App.ingest_latest morning
    [dated;
     {| App.raw_message_id := App.Str "<m9@mail>"; App.raw_sender := App.Null;
        App.raw_subject := App.Str "Help"; App.raw_body := App.Str "hello";
        App.raw_received_at := App.Missing |}]
    same_second = None.
Proof.
  apply (ingest_null_sender_raises morning _ same_second
    {| App.raw_message_id := App.Str "<m9@mail>"; App.raw_sender := App.Null;
       App.raw_subject := App.Str "Help"; App.raw_body := App.Str "hello";
       App.raw_received_at := App.Missing |}).
  - right. left.
  - reflexivity.
  - left. reflexivity.
Defined.

(** X10. Without a credential, when the heuristics and the template do
    all the work, [ingest_latest] raises nothing as soon as no email of
    the batch has a null sender, whatever else the raw emails lack.  (With
    a credential the oracle can hand the analysis a value that is no text,
    which the store refuses: see [json_loads].) *)
Theorem ingest_returns_with_senders (env : Env) (raw_emails : list App.RawEmail)
    (d : Db.db) :
  GEMINI_API_KEY env = false →
  (∀ e, e ∈ raw_emails → App.raw_sender e ≠ App.Null) →
  is_Some (App.ingest_latest env raw_emails d).
Proof.
  intros _ Hs. unfold App.ingest_latest.
  destruct (IngestFacts.process_all_Some env 0 raw_emails) as [rs ->];
    [|by eexists].
  intros e j He. unfold App.process.
  destruct (OracleFacts.generate_response_is_Some env (App.normalize env j e)
              (NlpService.analyze_email env (App.normalize env j e))
              (default "" (App.get_default (App.raw_sender e)))) as [dr ->].
  - unfold App.normalize. simpl. specialize (Hs e He).
    by destruct (App.raw_sender e).
  - by eexists.
Qed.

Lemma ingest_returns_with_senders_witness :
  is_Some (App.ingest_latest morning [undated; unnamed; anonymous] same_second).
Proof.
  apply (ingest_returns_with_senders morning [undated; unnamed; anonymous]);
    [reflexivity|].
  intros e He. repeat (apply elem_of_cons in He as [->|He]; [discriminate|]).
  by apply elem_of_nil in He.
Defined.

(** X11. After [ingest_latest] every row of the store is either a row that
    was there before, unchanged, or holds the record built from an email
    of the batch, with status ["pending"]. *)
Theorem ingest_rows_old_or_pending (env : Env) (raw_emails : list App.RawEmail)
    (d d' : Db.db) (r : Db.row) :
  App.ingest_latest env raw_emails d = Some d' →
  r ∈ Db.emails d' →
  r ∈ Db.emails d ∨
  (Db.status (Db.data r) = "pending" ∧
   ∃ k e, raw_emails !! k = Some e ∧ App.process env k e = Some (Db.data r)).
Proof.
  intros (processed & Hp & Hd')%IngestFacts.ingest_latest_inv Hr.
  rewrite Hd' in Hr.
  apply IngestFacts.elem_of_fold_upsert in Hr as [?|Hr]; [by left|]. right.
  apply StableSortFacts.sort_elem_of in Hr.
  destruct (IngestFacts.process_all_elem_of _ _ _ _ _ Hp Hr) as (k & e & Hk & He).
  split; [by destruct (IngestFacts.process_fields _ _ _ _ He)|].
  by exists k, e.
Qed.

Lemma ingest_rows_old_or_pending_witness :
  {| Db.id := 2;
     Db.data := sample_record "<m2@mail>" "2024-01-01T10:00:00.900000+00:00"
                  "Not urgent" |}
    ∈ Db.emails same_second
  ∨ (Db.status (sample_record "<m2@mail>" "2024-01-01T10:00:00.900000+00:00"
                  "Not urgent") = "pending" ∧
     ∃ k e, [dated] !! k = Some e ∧
            App.process morning k e
            = Some (sample_record "<m2@mail>" "2024-01-01T10:00:00.900000+00:00"
                      "Not urgent")).
Proof.
  apply (ingest_rows_old_or_pending morning [dated] same_second
           (default same_second (App.ingest_latest morning [dated] same_second))
           {| Db.id := 2;
              Db.data := sample_record "<m2@mail>"
                           "2024-01-01T10:00:00.900000+00:00" "Not urgent" |}).
  - vm_compute. reflexivity.
  - vm_compute. right. left.
Defined.

(** X12. Ingestion resets the status: after [ingest_latest] the row under
    the identifier of an email of the batch has status ["pending"],
    whatever status it had before. *)
Theorem ingest_resets_status (env : Env) (raw_emails : list App.RawEmail)
    (d d' : Db.db) (k : nat) (e : App.RawEmail) (r : Db.row) :
  App.ingest_latest env raw_emails d = Some d' →
  raw_emails !! k = Some e →
  r ∈ Db.emails d' →
  Db.message_id (Db.data r) = message_id (App.normalize env k e) →
  Db.status (Db.data r) = "pending".
Proof.
  intros (processed & Hp & Hd')%IngestFacts.ingest_latest_inv Hk Hr Hm.
  rewrite Hd' in Hr.
  destruct (IngestFacts.process_all_lookup _ _ _ _ _ _ Hp Hk) as (rk & Hrk & Hpk).
  destruct (IngestFacts.process_fields _ _ _ _ Hpk) as [Hidk _].
  destruct (IngestFacts.last_occurrence
              (StableSort.sort (App.by_sort_key env) processed)
              (Db.message_id (Db.data r)))
    as (before & x & after & Hsort & Hx & Hafter).
  { apply list_elem_of_fmap. exists rk. split.
    - by rewrite Hm, Hidk.
    - apply StableSortFacts.sort_elem_of. by eapply list_elem_of_lookup_2. }
  rewrite Hsort in Hr.
  apply DbFacts.row_of_fold_upsert in Hr; [|done..].
  assert (x ∈ processed) as Hxin.
  { apply (StableSortFacts.sort_elem_of (App.by_sort_key env)).
    rewrite Hsort. set_solver. }
  destruct (IngestFacts.process_all_elem_of _ _ _ _ _ Hp Hxin) as (k' & e' & _ & He').
  rewrite Hr. by destruct (IngestFacts.process_fields _ _ _ _ He').
Qed.

Lemma ingest_resets_status_witness :
  Db.status
    (Db.data {| Db.id := 1;
                Db.data := default (sample_record "" "" "")
                             (App.process morning 0 dated) |})
  = "pending".
Proof.
  apply (ingest_resets_status morning [dated] resolved_store
           (default resolved_store
              (App.ingest_latest morning [dated] resolved_store))
           0%nat dated).
  - vm_compute. reflexivity.
  - reflexivity.
  - vm_compute. left.
  - vm_compute. reflexivity.
Defined.

(** X13. Of several versions of one email in a batch, the store keeps the
    one that the batch sort puts last: the sort key (priority rank, then
    the negated float of the timestamp) of every version is at most the
    key of the stored one, so that the stored version is Not urgent as
    soon as one version is. *)
Theorem ingest_keeps_last_sorted_version (env : Env)
    (raw_emails : list App.RawEmail) (d d' : Db.db)
    (processed : list Db.record) (r : Db.row) (v : Db.record) :
  App.ingest_latest env raw_emails d = Some d' →
  App.process_all env 0 raw_emails = Some processed →
  r ∈ Db.emails d' →
  v ∈ processed →
  Db.message_id v = Db.message_id (Db.data r) →
  App.key_leb (App.sort_key env v) (App.sort_key env (Db.data r)) = true ∧
  (Db.priority v ≠ "Urgent" → Db.priority (Db.data r) ≠ "Urgent").
Proof.
  intros (processed' & Hp' & Hd')%IngestFacts.ingest_latest_inv Hp Hr Hv Hm.
  rewrite Hd' in Hr.
  assert (processed' = processed) as -> by congruence.
  assert (App.key_leb (App.sort_key env v) (App.sort_key env (Db.data r)) = true)
    as Hle.
  { destruct (IngestFacts.last_occurrence
                (StableSort.sort (App.by_sort_key env) processed)
                (Db.message_id (Db.data r)))
      as (before & x & after & Hsort & Hx & Hafter).
    { apply list_elem_of_fmap. exists v. split; [done|].
      by apply StableSortFacts.sort_elem_of. }
    pose proof (StableSortFacts.sort_sorted (App.by_sort_key env)
                  (λ a b, OrderFacts.key_leb_total _ _)
                  (λ a b c, OrderFacts.key_leb_trans _ _ _) processed) as Hs.
    rewrite Hsort in Hr, Hs.
    apply DbFacts.row_of_fold_upsert in Hr; [|done..]. rewrite Hr.
    apply (StableSortFacts.sort_elem_of (App.by_sort_key env)) in Hv.
    rewrite Hsort in Hv.
    apply elem_of_app in Hv as [Hv|Hv].
    - apply StronglySorted_app in Hs as (Hlt & _ & _).
      apply (Hlt v x Hv). left.
    - apply elem_of_cons in Hv as [->|Hv].
      + by destruct (OrderFacts.key_leb_total (App.sort_key env x)
                       (App.sort_key env x)).
      + exfalso. apply (Hafter v Hv). congruence. }
  split; [done|]. intros Hv' Hr'.
  unfold App.key_leb, App.sort_key in Hle. simpl in Hle.
  rewrite (decide_True _ _ Hr'), (decide_False _ _ Hv') in Hle.
  simpl in Hle. done.
Qed.

Lemma ingest_keeps_last_sorted_version_witness :
  App.key_leb
    (App.sort_key morning (default (sample_record "" "" "")
                             (App.process morning 0 dated)))
    (App.sort_key morning (default (sample_record "" "" "")
                             (App.process morning 1 undated))) = true ∧
  (Db.priority (default (sample_record "" "" "") (App.process morning 0 dated))
   ≠ "Urgent" →
   Db.priority (default (sample_record "" "" "") (App.process morning 1 undated))
   ≠ "Urgent").
Proof.
  apply (ingest_keeps_last_sorted_version morning [dated; undated]
           (Db.init_db None)
           (default (Db.init_db None)
              (App.ingest_latest morning [dated; undated] (Db.init_db None)))
           (default [] (App.process_all morning 0 [dated; undated]))
           {| Db.id := 1;
              Db.data := default (sample_record "" "" "")
                           (App.process morning 1 undated) |}).
  - vm_compute. reflexivity.
  - vm_compute. reflexivity.
  - vm_compute. left.
  - vm_compute. left.
  - vm_compute. reflexivity.
Defined.


(* ===================================================================== *)
(** * Properties of the dashboard *)
(* ===================================================================== *)

Module DashboardFacts.
Import Dashboard.

Lemma count_if_bounds {A} (p : A → bool) l :
  0 ≤ count_if p l ≤ Z.of_nat (length l).
Proof. induction l as [|x l IH]; simpl; [lia|]. destruct (p x); lia. Qed.

Lemma count_if_none {A} (p : A → bool) l :
  Forall (λ x, p x = false) l → count_if p l = 0.
Proof. induction 1 as [|x l Hx _ IH]; simpl; [done|]. rewrite Hx. lia. Qed.

Lemma count_if_exclusive {A} (p q r : A → bool) l :
  (∀ x, p x = true → q x = false ∧ r x = false) →
  (∀ x, q x = true → r x = false) →
  count_if p l + count_if q l + count_if r l ≤ Z.of_nat (length l).
Proof.
  intros Hp Hq. induction l as [|x l IH]; simpl; [lia|].
  destruct (p x) eqn:Hpx.
  - destruct (Hp x Hpx) as [-> ->]. lia.
  - destruct (q x) eqn:Hqx; [rewrite (Hq x Hqx); lia|].
    destruct (r x); lia.
Qed.

Section facts.
Variable fromisoformat : string → option (bool * Z).
Variable now : Z.

Lemma count_recent_bounds l n :
  count_recent fromisoformat now l = Some n → 0 ≤ n ≤ Z.of_nat (length l).
Proof.
  revert n. induction l as [|e l IH]; intros n Hn; simpl in *.
  - simplify_eq. lia.
  - destruct (is_recent fromisoformat now e) as [b|]; [|done]. simpl in Hn.
    destruct (count_recent fromisoformat now l) as [m|]; [|done].
    simplify_eq/=. specialize (IH m eq_refl). destruct b; lia.
Qed.

Lemma is_recent_None e :
  is_recent fromisoformat now e = None
  ↔ ∃ t, fromisoformat (Db.received_at (Db.data e)) = Some (true, t).
Proof.
  unfold is_recent.
  destruct (fromisoformat (Db.received_at (Db.data e))) as [[[] t]|];
    split; try done; eauto; by intros [? ?].
Qed.

Lemma count_recent_None l :
  count_recent fromisoformat now l = None
  ↔ ∃ e t, e ∈ l ∧ fromisoformat (Db.received_at (Db.data e)) = Some (true, t).
Proof.
  induction l as [|e l IH]; simpl.
  - split; [done|]. intros (e & t & He & _). by apply elem_of_nil in He.
  - split.
    + intros H. destruct (is_recent fromisoformat now e) as [b|] eqn:Hr.
      * simpl in H.
        destruct (count_recent fromisoformat now l) as [m|]; [done|].
        destruct (proj1 IH eq_refl) as (e' & t' & He' & Ht').
        exists e', t'. split; [by right|done].
      * apply is_recent_None in Hr as [t Ht]. exists e, t. split; [left|done].
    + intros (e' & t' & He' & Ht'). apply elem_of_cons in He' as [->|He'].
      * by rewrite (proj2 (is_recent_None e) (ex_intro _ t' Ht')).
      * rewrite (proj2 IH (ex_intro _ e' (ex_intro _ t' (conj He' Ht')))).
        by destruct (is_recent fromisoformat now e).
Qed.

Lemma count_recent_unreadable l :
  Forall (λ e, fromisoformat (Db.received_at (Db.data e)) = None) l →
  count_recent fromisoformat now l = Some (Z.of_nat (length l)).
Proof.
  induction 1 as [|e l He _ IH]; simpl; [done|].
  unfold is_recent. rewrite He, IH. simpl.
  destruct (Z.leb_spec (now - 24 * 3600 * 1000000) now); [|lia].
  f_equal. lia.
Qed.

End facts.

Lemma fetch_length datetime d obp limit :
  0 ≤ limit →
  Z.of_nat (length (Db.fetch_emails datetime d obp limit)) ≤ limit.
Proof.
  intros Hl. unfold Db.fetch_emails, Db.sql_limit.
  destruct (Z.ltb_spec limit 0); [lia|].
  destruct obp; rewrite length_take; lia.
Qed.

Lemma fetch_elem_of datetime d obp limit r :
  r ∈ Db.fetch_emails datetime d obp limit → r ∈ Db.emails d.
Proof.
  unfold Db.fetch_emails, Db.sql_limit. intros Hr.
  destruct (limit <? 0), obp;
    try apply (subseteq_take (Z.to_nat limit)) in Hr;
    by apply StableSortFacts.sort_elem_of in Hr.
Qed.

Lemma ingest_keeps_pending env raw_emails d d' :
  App.ingest_latest env raw_emails d = Some d' →
  Forall (λ r, Db.status (Db.data r) = "pending") (Db.emails d) →
  Forall (λ r, Db.status (Db.data r) = "pending") (Db.emails d').
Proof.
  intros (processed & Hp & Hd')%IngestFacts.ingest_latest_inv Hd.
  rewrite Hd'. rewrite Forall_forall in *. intros r Hr.
  apply IngestFacts.elem_of_fold_upsert in Hr as [Hr|Hr]; [by apply Hd|].
  apply StableSortFacts.sort_elem_of in Hr.
  destruct (IngestFacts.process_all_elem_of _ _ _ _ _ Hp Hr) as (k & e & _ & He).
  by destruct (IngestFacts.process_fields _ _ _ _ He).
Qed.

End DashboardFacts.

(** X14. Whenever the dashboard gets to its template, its statistics are
    consistent with the rows it shows: [total] is their number and at most
    200, [pending] is [total - resolved] and not negative, and [urgent],
    [last_24h] and the sum of the three sentiment counts are each between 0
    and [total]. *)
Theorem dashboard_stats_consistent (datetime : string → option string)
    (fromisoformat : string → option (bool * Z)) (now : Z) (env : Env)
    (raw_emails : list App.RawEmail) (d : Db.db)
    (emails : list Db.row) (stats : Dashboard.Stats) :
  (Dashboard.dashboard datetime fromisoformat now env raw_emails d).2
  = Some (emails, stats) →
  Dashboard.total stats = Z.of_nat (length emails) ∧
  Dashboard.total stats ≤ 200 ∧
  0 ≤ Dashboard.resolved stats ≤ Dashboard.total stats ∧
  Dashboard.pending stats = Dashboard.total stats - Dashboard.resolved stats ∧
  0 ≤ Dashboard.pending stats ∧
  0 ≤ Dashboard.urgent stats ≤ Dashboard.total stats ∧
  0 ≤ Dashboard.last_24h stats ≤ Dashboard.total stats ∧
  0 ≤ Dashboard.positive stats ∧ 0 ≤ Dashboard.negative stats ∧
  0 ≤ Dashboard.neutral stats ∧
  Dashboard.positive stats + Dashboard.negative stats + Dashboard.neutral stats
  ≤ Dashboard.total stats.
Proof.
  unfold Dashboard.dashboard.
  destruct (App.ingest_latest env raw_emails d) as [d'|]; [|done].
  cbn [snd].
  pose proof (DashboardFacts.fetch_length datetime d' true 200 ltac:(lia)) as Hlen.
  revert Hlen. generalize (Db.fetch_emails datetime d' true 200). intros l Hlen.
  destruct (Dashboard.count_recent fromisoformat now l) as [n|] eqn:Hn; [|done].
  simpl. intros [= <- <-]. simpl.
  pose proof (DashboardFacts.count_recent_bounds _ _ _ _ Hn).
  pose proof (DashboardFacts.count_if_bounds (Dashboard.has Db.status "resolved") l).
  pose proof (DashboardFacts.count_if_bounds (Dashboard.has Db.priority "Urgent") l).
  pose proof (DashboardFacts.count_if_bounds (Dashboard.has Db.sentiment "Positive") l).
  pose proof (DashboardFacts.count_if_bounds (Dashboard.has Db.sentiment "Negative") l).
  pose proof (DashboardFacts.count_if_bounds (Dashboard.has Db.sentiment "Neutral") l).
  pose proof (DashboardFacts.count_if_exclusive
                (Dashboard.has Db.sentiment "Positive")
                (Dashboard.has Db.sentiment "Negative")
                (Dashboard.has Db.sentiment "Neutral") l) as Hsum.
  split_and!; try lia. apply Hsum.
  - intros x Hx%bool_decide_eq_true. unfold Dashboard.has.
    rewrite !bool_decide_eq_false. rewrite Hx. done.
  - intros x Hx%bool_decide_eq_true. unfold Dashboard.has.
    rewrite !bool_decide_eq_false. rewrite Hx. done.
Qed.

Lemma dashboard_stats_consistent_witness :
  Dashboard.total
    (default (Dashboard.Build_Stats 0 0 0 0 0 0 0 0)
       (snd <$> (Dashboard.dashboard sample_datetime (λ _, None) 0 morning
                   [undated] resolved_store).2))
  ≤ 200.
Proof.
  apply (dashboard_stats_consistent sample_datetime (λ _, None) 0 morning
           [undated] resolved_store
           (default [] (fst <$> (Dashboard.dashboard sample_datetime (λ _, None) 0
                                   morning [undated] resolved_store).2))).
  vm_compute. reflexivity.
Defined.

(** X15. The dashboard raises exactly when ingestion raises or when one of
    the rows it fetched has a timestamp with a time zone, which cannot be
    compared with the cutoff of the last 24 hours; in the second case the
    batch has been stored all the same. *)
Theorem dashboard_raises_iff (datetime : string → option string)
    (fromisoformat : string → option (bool * Z)) (now : Z) (env : Env)
    (raw_emails : list App.RawEmail) (d : Db.db) :
  ((Dashboard.dashboard datetime fromisoformat now env raw_emails d).2 = None
   ↔ App.ingest_latest env raw_emails d = None
     ∨ ∃ d' e t, App.ingest_latest env raw_emails d = Some d' ∧
                 e ∈ Db.fetch_emails datetime d' true 200 ∧
                 fromisoformat (Db.received_at (Db.data e)) = Some (true, t)) ∧
  (Dashboard.dashboard datetime fromisoformat now env raw_emails d).1
  = default d (App.ingest_latest env raw_emails d).
Proof.
  unfold Dashboard.dashboard.
  destruct (App.ingest_latest env raw_emails d) as [d'|]; cbn [fst snd].
  - split; [|done].
    remember (Db.fetch_emails datetime d' true 200) as l eqn:Hl.
    destruct (Dashboard.count_recent fromisoformat now l) as [n|] eqn:Hn; simpl.
    + split; [done|]. intros [?|(d0 & e & t & [= ->] & He & Ht)]; [done|].
      change (e ∈ Db.fetch_emails datetime d0 true 200) in He.
      rewrite <-Hl in He.
      assert (Dashboard.count_recent fromisoformat now l = None) as Hnone
        by (apply DashboardFacts.count_recent_None; eauto).
      congruence.
    + split; [|done]. intros _. right.
      apply DashboardFacts.count_recent_None in Hn as (e & t & He & Ht).
      exists d', e, t. split_and!; [done| |done].
      change (e ∈ Db.fetch_emails datetime d' true 200). by rewrite <-Hl.
  - split; [|done]. split; [by left|done].
Qed.

Lemma dashboard_raises_iff_witness :
  (Dashboard.dashboard sample_datetime
     (λ s, if decide (s = "2024-01-01T10:00:00.100000+00:00")
           then Some (true, 1704103200100000) else None)
     1704132000000000 morning [dated] (Db.init_db None)).2 = None.
Proof.
  apply (proj2 (proj1 (dashboard_raises_iff sample_datetime
     (λ s, if decide (s = "2024-01-01T10:00:00.100000+00:00")
           then Some (true, 1704103200100000) else None)
     1704132000000000 morning [dated] (Db.init_db None)))).
  right.
  exists (default (Db.init_db None)
            (App.ingest_latest morning [dated] (Db.init_db None))),
         {| Db.id := 1;
            Db.data := default (sample_record "" "" "")
                         (App.process morning 0 dated) |},
         1704103200100000.
  split_and!; [vm_compute; reflexivity|vm_compute; left|reflexivity].
Defined.

(** X16. In a store where every row is pending, as in any store that only
    [ingest_latest] has written, every row is still pending after the
    dashboard has run, and the dashboard shows no resolved email: all the
    emails it shows are counted as pending. *)
Theorem dashboard_all_pending (datetime : string → option string)
    (fromisoformat : string → option (bool * Z)) (now : Z) (env : Env)
    (raw_emails : list App.RawEmail) (d : Db.db) :
  Forall (λ r, Db.status (Db.data r) = "pending") (Db.emails d) →
  Forall (λ r, Db.status (Db.data r) = "pending")
    (Db.emails (Dashboard.dashboard datetime fromisoformat now env raw_emails d).1) ∧
  ∀ emails stats,
    (Dashboard.dashboard datetime fromisoformat now env raw_emails d).2
    = Some (emails, stats) →
    Dashboard.resolved stats = 0 ∧ Dashboard.pending stats = Dashboard.total stats.
Proof.
  intros Hd. unfold Dashboard.dashboard.
  destruct (App.ingest_latest env raw_emails d) as [d'|] eqn:Hi;
    cbn [fst snd]; [|done].
  pose proof (DashboardFacts.ingest_keeps_pending _ _ _ _ Hi Hd) as Hd'.
  split; [done|]. intros emails stats.
  pose proof (DashboardFacts.fetch_elem_of datetime d' true 200) as Hsub.
  revert Hsub. generalize (Db.fetch_emails datetime d' true 200). intros l Hsub.
  destruct (Dashboard.count_recent fromisoformat now l) as [n|]; [|done].
  simpl. intros [= <- <-]. simpl.
  rewrite DashboardFacts.count_if_none; [lia|].
  rewrite Forall_forall in *. intros r Hr%Hsub.
  unfold Dashboard.has. rewrite bool_decide_eq_false, (Hd' r Hr). done.
Qed.

Lemma dashboard_all_pending_witness :
  Forall (λ r, Db.status (Db.data r) = "pending")
    (Db.emails (Dashboard.dashboard sample_datetime (λ _, None) 0 morning
                  [undated] same_second).1).
Proof.
  apply (proj1 (dashboard_all_pending sample_datetime (λ _, None) 0 morning
                  [undated] same_second
                  ltac:(repeat constructor))).
Defined.

(** X17. A timestamp that [fromisoformat] cannot read counts as now: when
    no fetched row has a readable timestamp, the dashboard raises nothing
    and counts every row it shows in [last_24h]. *)
Theorem dashboard_unreadable_is_recent (datetime : string → option string)
    (fromisoformat : string → option (bool * Z)) (now : Z) (env : Env)
    (raw_emails : list App.RawEmail) (d d' : Db.db) :
  App.ingest_latest env raw_emails d = Some d' →
  Forall (λ e, fromisoformat (Db.received_at (Db.data e)) = None)
    (Db.fetch_emails datetime d' true 200) →
  ∃ stats,
    (Dashboard.dashboard datetime fromisoformat now env raw_emails d).2
    = Some (Db.fetch_emails datetime d' true 200, stats) ∧
    Dashboard.last_24h stats = Dashboard.total stats.
Proof.
  intros Hi Hun. unfold Dashboard.dashboard. rewrite Hi. cbn [snd].
  rewrite (DashboardFacts.count_recent_unreadable _ _ _ Hun).
  eexists. split; [reflexivity|]. done.
Qed.

Lemma dashboard_unreadable_is_recent_witness :
  ∃ stats,
    (Dashboard.dashboard sample_datetime (λ _, None) 0 morning [undated]
       resolved_store).2
    = Some (Db.fetch_emails sample_datetime
              (default resolved_store
                 (App.ingest_latest morning [undated] resolved_store)) true 200,
            stats) ∧
    Dashboard.last_24h stats = Dashboard.total stats.
Proof.
  apply (dashboard_unreadable_is_recent sample_datetime (λ _, None) 0 morning
           [undated] resolved_store).
  - vm_compute. reflexivity.
  - vm_compute. repeat constructor.
Defined.


(* ===================================================================== *)
(** * Further properties of the analysis *)
(* ===================================================================== *)

Module ReqFacts.
Import NlpService.

Lemma lower_letters_append a b :
  lower_letters (a +:+ b) = lower_letters a +:+ lower_letters b.
Proof.
  induction a as [|c a IH]; [done|].
  rewrite PyFacts.append_cons. simpl. by rewrite IH.
Qed.

Lemma substring_of_lower_letters p s :
  substring_of p s → substring_of (lower_letters p) (lower_letters s).
Proof.
  intros (a & b & ->). exists (lower_letters a), (lower_letters b).
  by rewrite !lower_letters_append.
Qed.

(** A plain word that [lower] shows in a piece of a text, it shows in the
    text. *)
Lemma contains_lower_substring_of k p s :
  plain k = true → Py.contains k (Py.lower p) = true → substring_of p s →
  Py.contains k (Py.lower s) = true.
Proof.
  intros Hk Hc Hp. rewrite PyFacts.contains_lower_plain in * by done.
  apply PyFacts.contains_spec in Hc. apply PyFacts.contains_spec.
  by apply (PyFacts.substring_of_trans k (lower_letters p)),
    substring_of_lower_letters.
Qed.

Lemma requirement_keys_plain k : k ∈ requirement_keys → plain k = true.
Proof.
  intros Hk. repeat (apply elem_of_cons in Hk as [->|Hk]; [done|]).
  by apply elem_of_nil in Hk.
Qed.

Lemma lstrip_substring s : substring_of (Py.lstrip s) s.
Proof.
  induction s as [|c s IH]; simpl; [apply PyFacts.substring_of_refl|].
  destruct (Py.isspace c); [by apply PyFacts.substring_of_cons|apply PyFacts.substring_of_refl].
Qed.

Lemma strip_substring s : substring_of (Py.strip s) s.
Proof.
  unfold Py.strip. eapply PyFacts.substring_of_trans; [|apply lstrip_substring].
  destruct (PyFacts.rstrip_prefix (Py.lstrip s)) as [post Hpost].
  exists "", post. by rewrite PyFacts.append_nil_l.
Qed.

(** The piece being read is the beginning of what is left to read. *)
Lemma split_sentences_head punct s :
  ∃ p ps post, split_sentences false punct s = p :: ps ∧ s = p +:+ post.
Proof.
  revert punct. induction s as [|c s IH]; intros punct; simpl.
  - by exists "", [], "".
  - destruct (Py.isspace c && _).
    + by exists "", (split_sentences true false s), (String c s).
    + destruct (IH (is_stop c)) as (p & ps & post & -> & Hs).
      exists (String c p), ps, post. by rewrite PyFacts.append_cons, <-Hs.
Qed.

Lemma split_sentences_substring skip punct s p :
  p ∈ split_sentences skip punct s → substring_of p s.
Proof.
  revert skip punct. induction s as [|c s IH]; intros skip punct; simpl.
  - intros ->%list_elem_of_singleton. apply PyFacts.substring_of_refl.
  - destruct (Py.isspace c && (skip || punct)).
    + destruct skip.
      * intros Hp%IH. by apply PyFacts.substring_of_cons.
      * intros [->|Hp%IH]%elem_of_cons.
        -- by exists "", (String c s).
        -- by apply PyFacts.substring_of_cons.
    + destruct (split_sentences_head (is_stop c) s) as (p0 & ps & post & Hsp & Hs).
      pose proof (IH false (is_stop c)) as IH'. rewrite Hsp in *.
      intros [->|Hp]%elem_of_cons.
      * exists "", post. by rewrite PyFacts.append_nil_l, PyFacts.append_cons, <-Hs.
      * apply PyFacts.substring_of_cons, IH'. by right.
Qed.

Lemma split_sentences_one s :
  string_forall (λ c, negb (is_stop c)) s = true →
  split_sentences false false s = [s].
Proof.
  induction s as [|c s IH]; simpl; [done|].
  intros [Hc%negb_true_iff Hs]%andb_true_iff.
  rewrite andb_false_r, Hc, IH; done.
Qed.

Lemma string_forall_lstrip p s :
  string_forall p s = true → string_forall p (Py.lstrip s) = true.
Proof.
  induction s as [|c s IH]; simpl; [done|].
  intros [Hc Hs]%andb_true_iff.
  destruct (Py.isspace c); [by apply IH|]. simpl. by rewrite Hc, Hs.
Qed.

Lemma string_forall_rstrip p s :
  string_forall p s = true → string_forall p (Py.rstrip s) = true.
Proof.
  induction s as [|c s IH]; simpl; [done|].
  intros [Hc Hs]%andb_true_iff. specialize (IH Hs).
  destruct (Py.rstrip s).
  - destruct (Py.isspace c); [done|]. simpl. by rewrite Hc.
  - simpl in *. by rewrite Hc, IH.
Qed.

Lemma filter_nil_Forall {A} (P : A → Prop) `{∀ x, Decision (P x)} (l : list A) :
  Forall (λ x, ¬ P x) l → filter P l = [].
Proof.
  induction 1 as [|x l Hx _ IH]; [done|].
  by rewrite filter_cons_False.
Qed.

End ReqFacts.

(** X18. The heuristic priority of an email is Urgent exactly when one of
    the urgent words occurs in [subject + "\n" + body], letter case apart,
    and Not urgent otherwise. *)
Theorem heuristic_priority_rule (email_obj : Email) :
  (occurs_in NlpService.URGENT_WORDS
     (subject email_obj +:+ "
" +:+ body email_obj) →
   priority (NlpService.heuristic_result email_obj) = "Urgent") ∧
  (¬ occurs_in NlpService.URGENT_WORDS
       (subject email_obj +:+ "
" +:+ body email_obj) →
   priority (NlpService.heuristic_result email_obj) = "Not urgent").
Proof.
  unfold NlpService.heuristic_result. cbn [priority].
  unfold NlpService._priority.
  pose proof (NlpFacts.any_in_combined NlpService.URGENT_WORDS
                (subject email_obj +:+ "
" +:+ body email_obj) eq_refl) as Hu.
  destruct (NlpService.any_in NlpService.URGENT_WORDS _).
  - split; [done|]. intros Hnot. exfalso. by apply Hnot, Hu.
  - split; [|done]. intros Hocc. by apply Hu in Hocc.
Qed.

Lemma heuristic_priority_rule_witness :
  priority (NlpService.heuristic_result
              {| message_id := "<m1@mail>"; sender := Some "Ann";
                 subject := "Site is DOWN"; body := "since noon";
                 received_at := "" |}) = "Urgent".
Proof.
  apply (proj1 (heuristic_priority_rule
    {| message_id := "<m1@mail>"; sender := Some "Ann";
       subject := "Site is DOWN"; body := "since noon";
       received_at := "" |})).
  exists "down", "site is ", "
since noon". split; [set_solver|reflexivity].
Defined.

(** X19. No requirement is made up: when none of the requirement keywords
    occurs in the body, letter case apart, the extracted requirements are
    empty. *)
Theorem requirements_need_a_keyword (text : string) :
  ¬ occurs_in NlpService.requirement_keys text →
  NlpService._extract_requirements text = "".
Proof.
  intros Hnot. unfold NlpService._extract_requirements.
  destruct (Py.truthy text); [|done].
  rewrite ReqFacts.filter_nil_Forall; [done|].
  rewrite Forall_forall. intros p Hp Hany. apply Hnot.
  apply Is_true_true in Hany. unfold NlpService.any_in in Hany.
  apply existsb_exists in Hany as (k & Hk%list_elem_of_In & Hc).
  assert (Py.contains k (Py.lower text) = true) as Hc'.
  { eapply ReqFacts.contains_lower_substring_of;
      [by apply ReqFacts.requirement_keys_plain|exact Hc|].
    eapply PyFacts.substring_of_trans;
      [by eapply ReqFacts.split_sentences_substring|].
    apply ReqFacts.strip_substring. }
  apply PyFacts.contains_spec in Hc' as (pre & post & Hs).
  by exists k, pre, post.
Qed.

Lemma requirements_need_a_keyword_witness :
  NlpService._extract_requirements "Thanks. All good now!" = "".
Proof.
  apply (requirements_need_a_keyword "Thanks. All good now!").
  intros H%NlpFacts.any_in_occurs. vm_compute in H. discriminate.
Defined.

(** X20. A body of ASCII characters without full stop, exclamation or
    question mark is one sentence: the extracted requirements are the
    whole body, trimmed, when a requirement keyword occurs in it, and
    empty otherwise. *)
Theorem requirements_of_one_sentence (text : string) :
  string_forall is_ascii text = true →
  string_forall (λ c, negb (NlpService.is_stop c)) text = true →
  (occurs_in NlpService.requirement_keys text →
   NlpService._extract_requirements text = Py.strip text) ∧
  (¬ occurs_in NlpService.requirement_keys text →
   NlpService._extract_requirements text = "").
Proof.
  intros _ Hstop.
  pose proof (NlpFacts.any_in_combined NlpService.requirement_keys text eq_refl)
    as Hkeys.
  unfold NlpService._extract_requirements.
  destruct (Py.truthy text) eqn:Ht.
  - rewrite ReqFacts.split_sentences_one
      by (by apply ReqFacts.string_forall_rstrip, ReqFacts.string_forall_lstrip).
    rewrite filter_cons, filter_nil.
    destruct (NlpService.any_in NlpService.requirement_keys
                (Py.lower (Py.strip text))) eqn:Hany.
    + rewrite decide_True by done. split; [done|].
      intros Hnot. exfalso. by apply Hnot, Hkeys.
    + rewrite decide_False by (intros H; exact H). split; [|intros _; reflexivity].
      intros Hocc. apply Hkeys in Hocc. congruence.
  - unfold Py.truthy in Ht. apply negb_false_iff, String.eqb_eq in Ht as ->.
    split; [|done]. intros (w & pre & post & Hw & Hs). exfalso.
    destruct pre; [|done]. rewrite PyFacts.append_nil_l in Hs.
    destruct w; [|done].
    repeat (apply elem_of_cons in Hw as [?|Hw]; [done|]).
    by apply elem_of_nil in Hw.
Qed.

Lemma requirements_of_one_sentence_witness :
  NlpService._extract_requirements "  please reset my password
" = Py.strip "  please reset my password
".
Proof.
  apply (proj1 (requirements_of_one_sentence "  please reset my password
" eq_refl eq_refl)).
  exists "please", "  ", " reset my password
". split; [set_solver|reflexivity].
Defined.

Module JsonFacts.
Import NlpService.

Lemma from_first_app d pre rest :
  string_forall (λ c, negb (bool_decide (c = d))) pre = true →
  from_first d (pre +:+ String d rest) = Some (String d rest).
Proof.
  induction pre as [|c pre IH]; simpl.
  - intros _. rewrite ?PyFacts.append_nil_l. simpl. by rewrite decide_True.
  - intros [Hc%negb_true_iff%bool_decide_eq_false Hpre]%andb_true_iff.
    rewrite ?PyFacts.append_cons. simpl. rewrite decide_False by done. auto.
Qed.

Lemma from_first_None d s :
  string_forall (λ c, negb (bool_decide (c = d))) s = true →
  from_first d s = None.
Proof.
  induction s as [|c s IH]; simpl; [done|].
  intros [Hc%negb_true_iff%bool_decide_eq_false Hs]%andb_true_iff.
  rewrite decide_False by done. auto.
Qed.

Lemma upto_last_None d s :
  string_forall (λ c, negb (bool_decide (c = d))) s = true →
  upto_last d s = None.
Proof.
  induction s as [|c s IH]; simpl; [done|].
  intros [Hc%negb_true_iff%bool_decide_eq_false Hs]%andb_true_iff.
  rewrite IH by done. by rewrite decide_False.
Qed.

Lemma upto_last_app d x post :
  string_forall (λ c, negb (bool_decide (c = d))) post = true →
  upto_last d (x +:+ String d post) = Some (x +:+ String d "").
Proof.
  intros Hpost. induction x as [|c x IH].
  - rewrite !PyFacts.append_nil_l. simpl.
    rewrite upto_last_None by done. by rewrite decide_True.
  - rewrite !PyFacts.append_cons. simpl. by rewrite IH.
Qed.

Lemma or_else_nonempty x y : y ≠ "" → or_else x y ≠ "".
Proof.
  intros Hy. unfold or_else, Py.truthy. destruct x as [s|]; [|done].
  by destruct (String.eqb_spec s "").
Qed.

Lemma or_else_keeps x y : or_else x y = "" → y = "".
Proof.
  intros H. destruct (decide (y = "")) as [|Hy]; [done|].
  by destruct (or_else_nonempty x y Hy).
Qed.

End JsonFacts.

(** X21. The JSON text taken from an answer of the oracle is what stands
    between the first opening brace and the last closing brace, braces
    included, whatever surrounds it; an answer without opening brace is
    taken whole. *)
Theorem json_text_between_braces (pre mid post : string) :
  (string_forall (λ c, negb (bool_decide (c = "{"%char))) pre = true →
   string_forall (λ c, negb (bool_decide (c = "}"%char))) post = true →
   NlpService.json_text (pre +:+ "{" +:+ mid +:+ "}" +:+ post)
   = "{" +:+ mid +:+ "}") ∧
  (string_forall (λ c, negb (bool_decide (c = "{"%char))) pre = true →
   NlpService.json_text pre = pre).
Proof.
  unfold NlpService.json_text. split.
  - intros Hpre Hpost.
    change ("{" +:+ mid +:+ "}" +:+ post)
      with (String "{" (mid +:+ String "}" post)).
    rewrite JsonFacts.from_first_app by done.
    change (String "{" (mid +:+ String "}" post))
      with (String "{" mid +:+ String "}" post).
    rewrite JsonFacts.upto_last_app by done. done.
  - intros Hpre. by rewrite JsonFacts.from_first_None.
Qed.

Lemma json_text_between_braces_witness :
  NlpService.json_text ("Here it is: " +:+ "{" +:+ "{a} and {b}" +:+ "}" +:+ " Bye.")
  = "{" +:+ "{a} and {b}" +:+ "}".
Proof.
  apply (proj1 (json_text_between_braces "Here it is: " "{a} and {b}" " Bye."));
    reflexivity.
Defined.

(** X22. The oracle never empties the analysis: whatever it answers, the
    sentiment and the priority that [analyze_email] returns are not empty,
    and requirements or contacts that the heuristics found are not
    replaced by an empty text. *)
Theorem analyze_email_never_empties (env : Env) (email_obj : Email) :
  sentiment (NlpService.analyze_email env email_obj) ≠ "" ∧
  priority (NlpService.analyze_email env email_obj) ≠ "" ∧
  (requirements (NlpService.analyze_email env email_obj) = "" →
   requirements (NlpService.heuristic_result email_obj) = "") ∧
  (contacts (NlpService.analyze_email env email_obj) = "" →
   contacts (NlpService.heuristic_result email_obj) = "").
Proof.
  assert (sentiment (NlpService.heuristic_result email_obj) ≠ "") as Hs.
  { destruct (OracleFacts.heuristic_result_valid email_obj) as [H _].
    intros Heq. rewrite Heq in H. set_solver. }
  assert (priority (NlpService.heuristic_result email_obj) ≠ "") as Hp.
  { destruct (OracleFacts.heuristic_result_valid email_obj) as [_ H].
    intros Heq. rewrite Heq in H. set_solver. }
  unfold NlpService.analyze_email.
  destruct (GEMINI_API_KEY env); [|done].
  destruct (nlp_call_gemini env _) as [raw|]; [|done].
  destruct (Py.truthy raw); [|done].
  destruct (json_loads env _) as [parsed|]; [|done].
  cbn [sentiment priority requirements contacts].
  split_and!.
  - by apply JsonFacts.or_else_nonempty.
  - by apply JsonFacts.or_else_nonempty.
  - apply JsonFacts.or_else_keeps.
  - apply JsonFacts.or_else_keeps.
Qed.

Lemma analyze_email_never_empties_witness :
  requirements (NlpService.heuristic_result
                  {| message_id := ""; sender := None; subject := "";
                     body := "All good"; received_at := "" |}) = "".
Proof.
  apply (proj1 (proj2 (proj2 (analyze_email_never_empties talkative
    {| message_id := ""; sender := None; subject := "";
       body := "All good"; received_at := "" |})))).
  vm_compute. reflexivity.
Defined.

(** X30. When the oracle gives no text (the call failed, timed out or
    answered nothing), [analyze_email] returns the heuristic analysis and
    [generate_response] what the template gives, unchanged; the sentiment
    and the priority of the heuristic analysis are of their value sets
    and, for an email with a sender, the template draft is not empty.
    When the oracle gives a text that is no JSON object, [analyze_email]
    still returns the heuristic analysis. *)
Theorem oracle_silence_degrades (env : Env) (email_obj : Email)
    (analysis : Analysis) :
  (no_reply (nlp_call_gemini env
               (NlpService.analysis_prompt (subject email_obj) (body email_obj)))
   ∨ unparseable env
       (nlp_call_gemini env
          (NlpService.analysis_prompt (subject email_obj) (body email_obj))) →
   NlpService.analyze_email env email_obj = NlpService.heuristic_result email_obj) ∧
  sentiment (NlpService.heuristic_result email_obj)
    ∈ ["Positive"; "Negative"; "Neutral"] ∧
  priority (NlpService.heuristic_result email_obj) ∈ ["Urgent"; "Not urgent"] ∧
  (no_reply (response_call_gemini env (ResponseService.reply_prompt env email_obj)) →
   ResponseService.generate_response env email_obj analysis
   = ResponseService.fallback_draft (sender email_obj) analysis) ∧
  (∀ s, sender email_obj = Some s →
     ∃ d, ResponseService.fallback_draft (sender email_obj) analysis = Some d
          ∧ d ≠ "").
Proof.
  split_and!.
  - intros [H|H].
    + by apply OracleFacts.analyze_email_no_reply.
    + by apply OracleFacts.analyze_email_unparseable.
  - apply OracleFacts.heuristic_result_valid.
  - apply OracleFacts.heuristic_result_valid.
  - apply OracleFacts.generate_response_no_reply.
  - intros s ->. apply OracleFacts.fallback_draft_Some.
Qed.

Lemma oracle_silence_degrades_witness :
  NlpService.analyze_email talkative ann_email = NlpService.heuristic_result ann_email
  ∧ ResponseService.generate_response (set_oracle None morning) ann_email
      (NlpService.heuristic_result ann_email)
    = ResponseService.fallback_draft (sender ann_email)
        (NlpService.heuristic_result ann_email)
  ∧ ∃ d, ResponseService.fallback_draft (sender ann_email)
           (NlpService.heuristic_result ann_email) = Some d ∧ d ≠ "".
Proof.
  split_and!.
  - apply (proj1 (oracle_silence_degrades talkative ann_email
                    (NlpService.heuristic_result ann_email))).
    right. exists "Sorry, no JSON here.". split; reflexivity.
  - apply (proj1 (proj2 (proj2 (proj2
             (oracle_silence_degrades (set_oracle None morning) ann_email
                (NlpService.heuristic_result ann_email)))))).
    left. reflexivity.
  - apply (proj2 (proj2 (proj2 (proj2
             (oracle_silence_degrades morning ann_email
                (NlpService.heuristic_result ann_email)))))
             "Ann <ann@example.com>").
    reflexivity.
Defined.


(* ===================================================================== *)
(** * Further properties of retrieval *)
(* ===================================================================== *)

Module RetrieveFacts.
Import ResponseService.

Lemma elem_of_slice_to {A} k (l : list A) x : x ∈ Py.slice_to k l → x ∈ l.
Proof.
  unfold Py.slice_to. destruct (0 <=? k); intros Hx;
    by eapply subseteq_take.
Qed.

Lemma slice_to_head {A} k (l : list A) x :
  Py.slice_to k l !! 0%nat = Some x → l !! 0%nat = Some x.
Proof.
  unfold Py.slice_to. destruct (0 <=? k); by intros [? _]%lookup_take_Some.
Qed.

Lemma elem_of_scored env query files c :
  c ∈ scored env query files ↔
  ∃ name txt, (name, Some txt) ∈ files ∧
              c = (size (token_set env query ∩ token_set env txt), txt, name).
Proof.
  unfold scored. rewrite list_elem_of_omap. split.
  - intros ([name [txt|]] & Hf & Hc); simplify_eq/=. eauto.
  - intros (name & txt & Hf & ->). exists (name, Some txt). done.
Qed.

Lemma prefix_of_fmap {A B} (f : A → B) (l1 l2 : list A) :
  l1 `prefix_of` l2 → f <$> l1 `prefix_of` f <$> l2.
Proof. intros [x ->]. exists (f <$> x). by rewrite fmap_app. Qed.

Lemma retrieve_inv env query top_k :
  retrieve_relevant_kb env query top_k = []
  ∨ ∃ files, KB_DIR env = Some files ∧
      retrieve_relevant_kb env query top_k
      = to_match <$> Py.slice_to top_k
          (StableSort.sort by_score_desc
             (filter (λ c, (0 < c.1.1)%nat) (scored env query files))).
Proof.
  unfold retrieve_relevant_kb. fold (token_set env query).
  destruct (KB_DIR env) as [files|]; [|by left].
  case_decide; [by left|]. right. exists files.
  by rewrite KbFacts.candidates_scored.
Qed.

End RetrieveFacts.

(** X23. Retrieval invents nothing: every match that
    [retrieve_relevant_kb] returns, whatever [top_k], is a readable file of
    the directory with its name and its whole text, and its score is the
    number of tokens it shares with the query, at least 1 and at most the
    number of distinct tokens of the query. *)
Theorem retrieve_matches_are_documents (env : Env) (query : string) (top_k : Z)
    (m : ResponseService.KbMatch) :
  m ∈ ResponseService.retrieve_relevant_kb env query top_k →
  ∃ files name txt,
    KB_DIR env = Some files ∧ (name, Some txt) ∈ files ∧
    ResponseService.source m = name ∧ ResponseService.text m = txt ∧
    ResponseService.score m = size (token_set env query ∩ token_set env txt) ∧
    (1 ≤ ResponseService.score m ≤ size (token_set env query))%nat.
Proof.
  intros Hm.
  destruct (RetrieveFacts.retrieve_inv env query top_k) as [Hnil|(files & Hkb & Heq)].
  { rewrite Hnil in Hm. by apply elem_of_nil in Hm. }
  rewrite Heq in Hm. apply list_elem_of_fmap in Hm as (c & -> & Hc).
  apply RetrieveFacts.elem_of_slice_to, StableSortFacts.sort_elem_of in Hc.
  apply list_elem_of_filter in Hc as [Hpos Hc].
  apply RetrieveFacts.elem_of_scored in Hc as (name & txt & Hf & ->).
  exists files, name, txt. simpl in *. split_and!; try done; try lia.
  apply subseteq_size. set_solver.
Qed.

Lemma retrieve_matches_are_documents_witness :
  ∃ files name txt,
    KB_DIR helpdesk = Some files ∧
    (name, Some txt) ∈ files ∧
    ResponseService.source (to_match (2%nat,
      "To reset your password open the login page.", "password.txt")) = name ∧
    ResponseService.text (to_match (2%nat,
      "To reset your password open the login page.", "password.txt")) = txt ∧
    ResponseService.score (to_match (2%nat,
      "To reset your password open the login page.", "password.txt"))
    = size (token_set helpdesk "How do I reset my password?"
            ∩ token_set helpdesk txt) ∧
    (1 ≤ ResponseService.score (to_match (2%nat,
      "To reset your password open the login page.", "password.txt"))
     ≤ size (token_set helpdesk "How do I reset my password?"))%nat.
Proof.
  apply (retrieve_matches_are_documents helpdesk
           "How do I reset my password?" 3).
  vm_compute. left.
Defined.

(** X24. The best match comes first: the score of the first match that
    [retrieve_relevant_kb] returns is at least the score of every readable
    document of the directory. *)
Theorem retrieve_best_first (env : Env) (query : string) (top_k : Z)
    (files : list (string * option string)) (m : ResponseService.KbMatch)
    (name txt : string) :
  KB_DIR env = Some files →
  ResponseService.retrieve_relevant_kb env query top_k !! 0%nat = Some m →
  (name, Some txt) ∈ files →
  (size (token_set env query ∩ token_set env txt) ≤ ResponseService.score m)%nat.
Proof.
  intros Hkb Hm Hf.
  destruct (RetrieveFacts.retrieve_inv env query top_k) as [Hnil|(files' & Hkb' & Heq)].
  { by rewrite Hnil in Hm. }
  assert (files' = files) as -> by congruence.
  rewrite Heq, list_lookup_fmap in Hm.
  destruct (Py.slice_to top_k _ !! 0%nat) as [c|] eqn:Hc; [|done].
  simpl in Hm. simplify_eq. apply RetrieveFacts.slice_to_head in Hc. simpl.
  set (d := (size (token_set env query ∩ token_set env txt), txt, name)).
  destruct (decide (0 < d.1.1)%nat) as [Hpos|]; [|simpl in *; lia].
  assert (d ∈ StableSort.sort ResponseService.by_score_desc
                (filter (λ c, (0 < c.1.1)%nat) (scored env query files))) as Hd.
  { apply StableSortFacts.sort_elem_of, list_elem_of_filter. split; [done|].
    apply RetrieveFacts.elem_of_scored. eauto. }
  apply list_elem_of_lookup in Hd as [i Hi].
  destruct i as [|i]; [by simplify_eq|].
  change (d.1.1 ≤ c.1.1)%nat. apply Nat.leb_le.
  eapply (StableSortFacts.sorted_lookup
            (λ a b, ResponseService.by_score_desc a b = true) _ 0%nat (S i));
    [|lia|done..].
  apply StableSortFacts.sort_sorted;
    [apply KbFacts.by_score_desc_total|apply KbFacts.by_score_desc_trans].
Qed.

Lemma retrieve_best_first_witness :
  (size (token_set helpdesk "How do I reset my password?"
         ∩ token_set helpdesk "Login problems: reset the password, then clear cookies.")
   ≤ ResponseService.score (to_match (2%nat,
       "To reset your password open the login page.", "password.txt")))%nat.
Proof.
  apply (retrieve_best_first helpdesk
           "How do I reset my password?" 1 sample_kb _ "login.txt").
  - reflexivity.
  - vm_compute. reflexivity.
  - right. right. left.
Defined.

(** X25. Asking for more matches only adds matches at the end: for
    [0 <= k <= k'], what [retrieve_relevant_kb] returns for [top_k = k] is
    the beginning of what it returns for [top_k = k']. *)
Theorem retrieve_prefix (env : Env) (query : string) (k k' : Z) :
  0 ≤ k ≤ k' →
  ResponseService.retrieve_relevant_kb env query k
    `prefix_of` ResponseService.retrieve_relevant_kb env query k'.
Proof.
  intros Hk. unfold ResponseService.retrieve_relevant_kb.
  destruct (KB_DIR env) as [files|]; [|done].
  case_decide; [done|].
  apply RetrieveFacts.prefix_of_fmap. unfold Py.slice_to.
  destruct (Z.leb_spec 0 k), (Z.leb_spec 0 k'); try lia.
  apply DbMore.take_prefix. lia.
Qed.

Lemma retrieve_prefix_witness :
  ResponseService.retrieve_relevant_kb (set_kb (Some sample_kb) morning)
    "How do I reset my password?" 1
    `prefix_of`
  ResponseService.retrieve_relevant_kb (set_kb (Some sample_kb) morning)
    "How do I reset my password?" 3.
Proof.
  apply (retrieve_prefix (set_kb (Some sample_kb) morning)
           "How do I reset my password?" 1 3). lia.
Defined.


(* ===================================================================== *)
(** * Properties of the mail loader *)
(* ===================================================================== *)

Module LoaderFacts.
Import EmailService.

Lemma gather_elem_of messages m :
  m ∈ gather messages → Some m ∈ messages ∧ is_support (subject m) = true.
Proof.
  induction messages as [|[m0|] messages IH]; simpl.
  - by intros ?%elem_of_nil.
  - destruct (is_support (subject m0)) eqn:Hm0.
    + intros [->|Hm]%elem_of_cons; [split; [left|done]|].
      destruct (IH Hm). split; [by right|done].
    + intros Hm. destruct (IH Hm). split; [by right|done].
  - by intros ?%elem_of_nil.
Qed.

Lemma gather_length messages : (length (gather messages) ≤ length messages)%nat.
Proof.
  induction messages as [|[m0|] messages IH]; simpl; [lia| |lia].
  destruct (is_support (subject m0)); simpl; lia.
Qed.

Lemma gather_stops before after :
  gather (before ++ None :: after) = gather before.
Proof.
  induction before as [|[m0|] before IH]; simpl; [done| |done].
  by rewrite IH.
Qed.

Lemma elem_of_slice_from {A} k (l : list A) x : x ∈ slice_from k l → x ∈ l.
Proof.
  unfold slice_from. destruct (0 <=? k); intros Hx;
    by eapply subseteq_drop.
Qed.

Lemma is_support_occurs subject :
  is_support subject = true → occurs_in FILTER_KEYWORDS subject.
Proof.
  unfold is_support. intros H. apply existsb_exists in H as (kw & Hkw & Hc).
  apply PyFacts.contains_spec in Hc as (pre & post & Hs).
  exists (Py.lower kw), pre, post. split; [|done].
  apply list_elem_of_In in Hkw.
  repeat (apply elem_of_cons in Hkw as [->|Hkw]; [set_solver|]).
  by apply elem_of_nil in Hkw.
Qed.

End LoaderFacts.

(** X26. [load_emails_from_gmail] returns only messages of the inbox whose
    subject holds one of the filter keywords, letter case apart; when the
    connection fails it returns nothing. *)
Theorem loader_returns_support_mails (inbox : option (list (option EmailService.Mail)))
    (limit : Z) (m : EmailService.Mail) :
  m ∈ EmailService.load_emails_from_gmail inbox limit →
  occurs_in EmailService.FILTER_KEYWORDS (EmailService.subject m) ∧
  ∃ messages, inbox = Some messages ∧ Some m ∈ messages.
Proof.
  unfold EmailService.load_emails_from_gmail.
  destruct inbox as [messages|]; [|by intros ?%elem_of_nil].
  intros [Hm Hs]%LoaderFacts.gather_elem_of.
  split; [by apply LoaderFacts.is_support_occurs|].
  exists messages. split; [done|].
  rewrite elem_of_reverse in Hm.
  exact (LoaderFacts.elem_of_slice_from _ _ _ Hm).
Qed.

Lemma loader_returns_support_mails_witness :
  occurs_in EmailService.FILTER_KEYWORDS
    (EmailService.subject
       {| EmailService.sender := "ann@example.com";
          EmailService.subject := "HELP with login";
          EmailService.body := "hello"; EmailService.date := "" |}) ∧
  ∃ messages,
    Some [Some {| EmailService.sender := "bob@example.com";
                  EmailService.subject := "Lunch?";
                  EmailService.body := ""; EmailService.date := "" |};
          Some {| EmailService.sender := "ann@example.com";
                  EmailService.subject := "HELP with login";
                  EmailService.body := "hello"; EmailService.date := "" |}]
    = Some messages ∧
    Some {| EmailService.sender := "ann@example.com";
            EmailService.subject := "HELP with login";
            EmailService.body := "hello"; EmailService.date := "" |}
      ∈ messages.
Proof.
  apply (loader_returns_support_mails _ 20).
  vm_compute. left.
Defined.

(** X27. A positive [limit] caps what [load_emails_from_gmail] returns; a
    [limit] of 0 caps nothing: the slice [[-0:]] is the whole inbox, and
    the loader then goes through every message, as it does with a limit
    that the inbox does not exceed. *)
Theorem loader_limit (messages : list (option EmailService.Mail)) (limit : Z) :
  (0 < limit →
   Z.of_nat (length (EmailService.load_emails_from_gmail (Some messages) limit))
   ≤ limit) ∧
  (limit = 0 ∨ Z.of_nat (length messages) ≤ limit →
   EmailService.load_emails_from_gmail (Some messages) limit
   = EmailService.gather (reverse messages)).
Proof.
  unfold EmailService.load_emails_from_gmail, EmailService.slice_from. split.
  - intros Hl. destruct (Z.leb_spec 0 (- limit)); [lia|].
    pose proof (LoaderFacts.gather_length
                  (reverse (drop (length messages - Z.to_nat (- - limit)) messages))).
    rewrite length_reverse, length_drop in *. lia.
  - intros [-> |Hl].
    + simpl. by rewrite drop_0.
    + destruct (Z.leb_spec 0 (- limit)).
      * assert (limit = 0) as -> by lia. simpl. by rewrite drop_0.
      * replace (length messages - Z.to_nat (- - limit))%nat with 0%nat by lia.
        by rewrite drop_0.
Qed.

Lemma loader_limit_witness :
  EmailService.load_emails_from_gmail
    (Some [Some {| EmailService.sender := "ann@example.com";
                   EmailService.subject := "HELP with login";
                   EmailService.body := "hello"; EmailService.date := "" |};
           Some {| EmailService.sender := "bob@example.com";
                   EmailService.subject := "Support request";
                   EmailService.body := ""; EmailService.date := "" |}]) 0
  = EmailService.gather
      (reverse
         [Some {| EmailService.sender := "ann@example.com";
                  EmailService.subject := "HELP with login";
                  EmailService.body := "hello"; EmailService.date := "" |};
          Some {| EmailService.sender := "bob@example.com";
                  EmailService.subject := "Support request";
                  EmailService.body := ""; EmailService.date := "" |}]).
Proof.
  apply (proj2 (loader_limit _ 0)). left. reflexivity.
Defined.

(** X28. A message that cannot be fetched or decoded ends the loop without
    an error, and hides every older message: for a [limit] that is not
    negative, the loader returns what it would return if the inbox held
    only the messages that are newer than the failing one. *)
Theorem loader_stops_at_failure (older newer : list (option EmailService.Mail))
    (limit : Z) :
  0 ≤ limit →
  EmailService.load_emails_from_gmail (Some (older ++ None :: newer)) limit
  = EmailService.load_emails_from_gmail (Some newer) limit.
Proof.
  intros Hl. unfold EmailService.load_emails_from_gmail, EmailService.slice_from.
  destruct (Z.leb_spec 0 (- limit)).
  - assert (limit = 0) as -> by lia. simpl. rewrite !drop_0.
    rewrite reverse_app, reverse_cons, <-app_assoc. simpl.
    apply LoaderFacts.gather_stops.
  - replace (Z.to_nat (- - limit)) with (Z.to_nat limit) by lia.
    rewrite length_app. simpl.
    destruct (decide (Z.to_nat limit ≤ length newer)%nat) as [Hle|Hgt].
    + rewrite drop_app_ge by lia.
      replace (length older + S (length newer) - Z.to_nat limit - length older)%nat
        with (S (length newer - Z.to_nat limit)) by lia.
      done.
    + replace (length newer - Z.to_nat limit)%nat with 0%nat by lia.
      rewrite drop_0, drop_app.
      replace (length older + S (length newer) - Z.to_nat limit - length older)%nat
        with 0%nat by lia.
      rewrite drop_0, reverse_app, reverse_cons, <-app_assoc. simpl.
      apply LoaderFacts.gather_stops.
Qed.

Lemma loader_stops_at_failure_witness :
  EmailService.load_emails_from_gmail
    (Some ([Some {| EmailService.sender := "ann@example.com";
                    EmailService.subject := "HELP with login";
                    EmailService.body := "hello"; EmailService.date := "" |}]
           ++ None
           :: [Some {| EmailService.sender := "bob@example.com";
                       EmailService.subject := "Support request";
                       EmailService.body := ""; EmailService.date := "" |}])) 20
  = EmailService.load_emails_from_gmail
      (Some [Some {| EmailService.sender := "bob@example.com";
                     EmailService.subject := "Support request";
                     EmailService.body := ""; EmailService.date := "" |}]) 20.
Proof.
  apply (loader_stops_at_failure _ _ 20). lia.
Defined.
